(** * sumit: changelog generation from the git history

    A shallow embedding of [cmd/root.go] and the verification of its
    behaviour: remote URL normalisation ([parseRemoteURL]), the
    per-commit [Change] record, the assembly and rendering of a
    [Release], and the error path through [bail].

    Go strings are modelled as [string] (a sequence of bytes); slices as
    [list]; a Go [error] value as [option error] with [None] for [nil]. *)

From Stdlib Require Import Ascii String.
From stdpp Require Import base list strings.

(** ** The standard-library functions the program calls *)

(** Package [strings].  Every call site of [Split] in [root.go] passes a
    one-byte separator (["/"], [":"] or a newline), which is the case
    modelled here. *)
Module strings.

(** [strings.HasPrefix(s, prefix)]. *)
Definition HasPrefix (s prefix : string) : bool := String.prefix prefix s.

(** [strings.TrimPrefix(s, prefix)]: [s[len(prefix):]] when the prefix
    is there, [s] otherwise. *)
Definition TrimPrefix (s prefix : string) : string :=
  if HasPrefix s prefix
  then String.substring (String.length prefix)
         (String.length s - String.length prefix) s
  else s.

(** [strings.HasSuffix(s, suffix)]:
    [len(s) >= len(suffix) && s[len(s)-len(suffix):] == suffix]. *)
Definition HasSuffix (s suffix : string) : bool :=
  (String.length suffix <=? String.length s)
  && String.eqb
       (String.substring (String.length s - String.length suffix)
          (String.length suffix) s)
       suffix.

(** [strings.TrimSuffix(s, suffix)]: [s[:len(s)-len(suffix)]] when the
    suffix is there, [s] otherwise. *)
Definition TrimSuffix (s suffix : string) : string :=
  if HasSuffix s suffix
  then String.substring 0 (String.length s - String.length suffix) s
  else s.

(** [strings.Split(s, sep)] for a one-byte [sep]: the pieces of [s]
    between the occurrences of [sep], in order.  The result is never
    empty: [Split("", sep)] is the one-element slice [[""]]. *)
Fixpoint Split (s : string) (sep : ascii) : list string :=
  match s with
  | EmptyString => [EmptyString]
  | String c s' =>
      if Ascii.eqb c sep then EmptyString :: Split s' sep
      else match Split s' sep with
           | piece :: pieces => String c piece :: pieces
           | [] => [String c EmptyString]
           end
  end.

End strings.

(** Package [errors] ([github.com/pkg/errors]): an error is a message,
    possibly wrapped with context.  [Error] is the [Error()] method. *)
Module errors.

Inductive error : Type :=
| New (message : string)
| Wrap (cause : error) (message : string).

Fixpoint Error (e : error) : string :=
  match e with
  | New message => message
  | Wrap cause message => message +:+ ": " +:+ Error cause
  end.

End errors.

Abbreviation error := errors.error.

(** ** Remote URL normalisation *)

(** [parseRemoteURL] ([root.go], lines 104-137).  The Go function
    returns the pair [(string, error)]; on failure the string is empty.
    The two accepted branches fill [baseURL], [ws] and [repoName], which
    the common tail joins with ["/"]. *)
Definition parseRemoteURL (url : string) : string * option error :=
  let fields : (string * string * string) + error :=
    if strings.HasPrefix url "https://" then
      let trimURL := strings.TrimPrefix url "https://" in
      let parts := strings.Split trimURL "/"%char in
      if length parts <? 3 then
        inr (errors.New ("invalid remote url structure: " +:+ url))
      else
        inl ("https://" +:+ parts !!! 0,
             parts !!! 1,
             strings.TrimSuffix (parts !!! 2) ".git")
    else if strings.HasPrefix url "git@" then
      let trimURL := strings.TrimPrefix url "git@" in
      let parts := strings.Split trimURL ":"%char in
      if length parts <? 2 then
        inr (errors.New ("invalid remote url structure: " +:+ url))
      else
        let baseURL := "https://" +:+ parts !!! 0 in
        let repoParts := strings.Split (parts !!! 1) "/"%char in
        if length repoParts <? 2 then
          inr (errors.New ("invalid remote url structure: " +:+ url))
        else
          inl (baseURL, repoParts !!! 0,
               strings.TrimSuffix (repoParts !!! 1) ".git")
    else
      inr (errors.New ("unsupported remote url structure: " +:+ url))
  in
  match fields with
  | inl (baseURL, ws, repoName) =>
      (baseURL +:+ "/" +:+ ws +:+ "/" +:+ repoName, None)
  | inr err => (EmptyString, Some err)
  end.

(** Package [strconv], and the [%d] verb of [fmt]: decimal digits. *)
Module strconv.

Definition digit (n : nat) : ascii := ascii_of_nat (48 + n mod 10).

(** The decimal digits of [n] in front of [acc]; [fuel] bounds the
    number of digits. *)
Fixpoint digits (fuel n : nat) (acc : string) : string :=
  match fuel with
  | 0 => acc
  | S fuel' =>
      let acc' := String (digit n) acc in
      if n <? 10 then acc' else digits fuel' (n / 10) acc'
  end.

Definition Itoa (n : nat) : string := digits (S n) n EmptyString.

End strconv.

(** ** Dates *)

(** Package [time], as far as [time.Now().Format("2006-01-02")] needs
    it: the local calendar date of an instant, and its rendering. *)
Module time.

Record Time : Type := { Year : nat; Month : nat; Day : nat }.

Fixpoint zeros (k : nat) : string :=
  match k with
  | 0 => EmptyString
  | S k' => String "0" (zeros k')
  end.

(** [appendInt(b, x, width)] for [x >= 0]: the decimal form of [x],
    padded on the left with zeros to at least [width] characters. *)
Definition appendInt (x width : nat) : string :=
  zeros (width - String.length (strconv.Itoa x)) +:+ strconv.Itoa x.

(** [t.Format("2006-01-02")]. *)
Definition Format_2006_01_02 (t : Time) : string :=
  appendInt (Year t) 4 +:+ "-" +:+ appendInt (Month t) 2
    +:+ "-" +:+ appendInt (Day t) 2.

End time.

(** ** Processes: console output, [os.Exit] and panics *)

Record console : Type := { stdout : string; stderr : string }.

(** The run-time panics the program can raise. *)
Inductive panic : Type :=
| NilDereference
| IndexOutOfRange
| SliceBoundsOutOfRange.

(** How a computation ends: it returns, the process exits through
    [os.Exit], or it panics. *)
Inductive outcome (A : Type) : Type :=
| Returned (a : A)
| Exited (code : nat)
| Panicked (p : panic).
Arguments Returned {A} a.
Arguments Exited {A} code.
Arguments Panicked {A} p.

Definition proc (A : Type) : Type := console → console * outcome A.

#[export] Instance proc_ret : MRet proc := λ A a con, (con, Returned a).

#[export] Instance proc_bind : MBind proc := λ A B k m con,
  match m con with
  | (con', Returned a) => k a con'
  | (con', Exited code) => (con', Exited code)
  | (con', Panicked p) => (con', Panicked p)
  end.

(** Writing to [os.Stdout] and [os.Stderr]. *)
Definition print (s : string) : proc unit := λ con,
  ({| stdout := stdout con +:+ s; stderr := stderr con |}, Returned tt).

Definition eprint (s : string) : proc unit := λ con,
  ({| stdout := stdout con; stderr := stderr con +:+ s |}, Returned tt).

Module os.
(** [os.Exit(code)] never returns. *)
Definition Exit {A : Type} (code : nat) : proc A := λ con, (con, Exited code).
End os.

Definition raise {A : Type} (p : panic) : proc A := λ con, (con, Panicked p).

(** [l[i]] on a slice: an out-of-range index panics. *)
Definition index {A : Type} (l : list A) (i : nat) : proc A :=
  match l !! i with
  | Some x => mret x
  | None => raise IndexOutOfRange
  end.

(** [s[:n]] on a string: panics when [n > len(s)]. *)
Definition slice_to (s : string) (n : nat) : proc string :=
  if n <=? String.length s then mret (String.substring 0 n s)
  else raise SliceBoundsOutOfRange.

Definition nl : string := String "010" EmptyString.
Definition esc : string := String "027" EmptyString.

(** ** The collaborators: go-git and cobra *)

(** The part of go-git the command uses.  A library call that returns
    [(value, error)] is a sum: [inl value] or [inr err]. *)
Module git.

(** A commit as the callback sees it: [Hash] is [c.Hash.String()]. *)
Record Commit : Type := { Hash : string; Message : string }.

(** [rem.Config()]. *)
Record RemoteConfig : Type := { URLs : list string }.

(** A commit iterator: the commits [Next] yields, and how the walk
    ends, with [io.EOF] ([None]) or with an error. *)
Record CommitIter : Type :=
  { commits : list Commit; failure : option error }.

Record Repository : Type :=
  { Remote : string → RemoteConfig + error;
    Head : string + error;
    Log : string → CommitIter + error }.

(** [iter.ForEach(cb)]: calls [cb] on every commit the iterator
    yields; stops at the first error, of the walk or of [cb], and
    returns it.  [release] is the variable the callback captures. *)
Fixpoint forEach {S : Type} (cs : list Commit) (walk : option error)
    (cb : Commit → S → proc (S * option error)) (release : S)
    : proc (S * option error) :=
  match cs with
  | [] => mret (release, walk)
  | c :: cs' =>
      r ← cb c release;
      match r.2 with
      | Some err => mret (r.1, Some err)
      | None => forEach cs' walk cb r.1
      end
  end.

Definition ForEach {S : Type} (iter : CommitIter)
    (cb : Commit → S → proc (S * option error)) (release : S)
    : proc (S * option error) :=
  forEach (commits iter) (failure iter) cb release.

End git.

(** The part of cobra the command uses. *)
Module cobra.

(** [cobra.MinimumNArgs(n)]. *)
Definition MinimumNArgs (n : nat) (args : list string) : option error :=
  if length args <? n then
    Some (errors.New ("requires at least " +:+ strconv.Itoa n
                      +:+ " arg(s), only received "
                      +:+ strconv.Itoa (length args)))
  else None.

End cobra.

(** What an invocation finds outside of its arguments: the file system
    as [git.PlainOpen] sees it, the clock, and the usage text cobra
    derives from the command. *)
Record World : Type :=
  { PlainOpen : string → git.Repository + error;
    Now : time.Time;
    UsageString : string }.

(** ** The data model ([root.go], lines 26-36) *)

Record Change : Type := { SHA : string; Title : string; URL : string }.

Record Release : Type :=
  { Version : string; Date : string; Changes : list Change }.

(** ** The command *)

(** [bail] ([root.go], lines 20-24). *)
Definition bail (err : option error) : proc unit :=
  match err with
  | None => mret tt
  | Some e =>
      print (nl +:+ esc +:+ "[31;1m" +:+ ("error: " +:+ errors.Error e)
             +:+ esc +:+ "[0m" +:+ nl);;
      os.Exit 1
  end.

(** [releaseTemplate] ([root.go], lines 38-42) executed on a release:
    [text/template] substitutes the fields verbatim, and [if .URL]
    tests for a non-empty string. *)
Definition executeChange (c : Change) : string :=
  nl +:+ "- " +:+ Title c +:+ " "
  +:+ (if String.eqb (URL c) "" then "[" +:+ SHA c +:+ "]"
       else "[" +:+ SHA c +:+ "](" +:+ URL c +:+ ")").

Definition executeTemplate (release : Release) : string :=
  nl +:+ "## [" +:+ Version release +:+ "] - " +:+ Date release +:+ nl
  +:+ String.concat "" (executeChange <$> Changes release) +:+ nl.

(** The callback handed to [iter.ForEach] ([root.go], lines 86-97). *)
Definition onCommit (useURL : bool) (remoteURL : string) (c : git.Commit)
    (release : Release) : proc (Release * option error) :=
  let hashStr := git.Hash c in
  let changeURL :=
    if useURL then remoteURL +:+ "/commits/" +:+ hashStr else "" in
  sha ← slice_to hashStr 7;
  let change :=
    {| SHA := sha;
       Title := strings.Split (git.Message c) "010"%char !!! 0;
       URL := changeURL |} in
  mret ({| Version := Version release; Date := Date release;
           Changes := Changes release ++ [change] |}, None).

(** The first part of [rootCmd.Run] ([root.go], lines 49-97): everything
    up to the release being assembled.  After a [bail] on a non-nil
    error the Go code would go on with a nil pointer; [bail] exits, so
    that is never reached. *)
Definition assemble (w : World) (dirFlag : string) (args : list string)
    : proc (Release * option error) :=
  version ← index args 0;
  let dir := if String.eqb dirFlag "" then "." else dirFlag in
  repo ← match PlainOpen w dir with
         | inl repo => mret repo
         | inr err =>
             bail (Some (errors.Wrap err "failed to open git repository"));;
             raise NilDereference
         end;
  origin ← match git.Remote repo "origin" with
           | inl rem =>
               url ← index (git.URLs rem) 0;
               let r := parseRemoteURL url in
               bail r.2;;
               mret (true, r.1)
           | inr _ => mret (false, "")
           end;
  let useURL := origin.1 in
  let remoteURL := origin.2 in
  ref ← match git.Head repo with
        | inl ref => mret ref
        | inr err =>
            bail (Some (errors.Wrap err "failed to get head ref"));;
            raise NilDereference
        end;
  iter ← match git.Log repo ref with
         | inl iter => mret iter
         | inr err =>
             bail (Some (errors.Wrap err "failed to get commit log"));;
             raise NilDereference
         end;
  let date := time.Format_2006_01_02 (Now w) in
  let release := {| Version := version; Date := date; Changes := [] |} in
  git.ForEach iter (onCommit useURL remoteURL) release.

(** [rootCmd.Run] ([root.go], lines 48-101).  The error [ForEach]
    returns is assigned to [err] and not looked at again. *)
Definition Run (w : World) (dirFlag : string) (args : list string)
    : proc unit :=
  r ← assemble w dirFlag args;
  print (executeTemplate r.1).

(** [rootCmd.Execute()]: cobra validates the arguments, reports a
    validation error and the usage on standard error, and otherwise
    calls [Run]. *)
Definition rootCmd_Execute (w : World) (dirFlag : string)
    (args : list string) : proc (option error) :=
  match cobra.MinimumNArgs 1 args with
  | Some err =>
      eprint ("Error: " +:+ errors.Error err +:+ nl);;
      eprint (UsageString w +:+ nl);;
      mret (Some err)
  | None => Run w dirFlag args;; mret None
  end.

(** [Execute] ([root.go], lines 139-141). *)
Definition Execute (w : World) (dirFlag : string) (args : list string)
    : proc unit :=
  err ← rootCmd_Execute w dirFlag args;
  bail err.

(** ** Vocabulary for the statements *)

(** The number of occurrences of the byte [c] in [s]. *)
Fixpoint count (c : ascii) (s : string) : nat :=
  match s with
  | EmptyString => 0
  | String c' s' => (if Ascii.eqb c' c then 1 else 0) + count c s'
  end.

(** [s] starts with [p], ends with [q]. *)
Definition starts_with (p s : string) : Prop := ∃ rest, s = p +:+ rest.
Definition ends_with (q s : string) : Prop := ∃ front, s = front +:+ q.

(** The two errors of [parseRemoteURL], as the code builds them with
    [errors.New(fmt.Sprintf("... remote url structure: %s", url))]. *)
Definition invalid (url : string) : string * option error :=
  ("", Some (errors.New ("invalid remote url structure: " +:+ url))).

Definition unsupported (url : string) : string * option error :=
  ("", Some (errors.New ("unsupported remote url structure: " +:+ url))).

(** [s] wrapped in the escape sequences for bold red. *)
Definition red (s : string) : string :=
  esc +:+ "[31;1m" +:+ s +:+ esc +:+ "[0m".

(** What [bail] leaves on a non-nil error: the line on standard output
    and exit status 1. *)
Definition bailed {A : Type} (err : error) (con : console)
    : console * outcome A :=
  ({| stdout := stdout con +:+ nl
                +:+ red ("error: " +:+ errors.Error err) +:+ nl;
      stderr := stderr con |}, Exited 1).

(** The working directory [Run] opens. *)
Definition workdir (dirFlag : string) : string :=
  if String.eqb dirFlag "" then "." else dirFlag.

(** How the look-up of the remote named [origin] can leave [useURL] and
    [remoteURL]: there is no such remote, or its first URL normalises to
    [remoteURL]. *)
Inductive origin (repo : git.Repository) : bool → string → Prop :=
| origin_missing err :
    git.Remote repo "origin" = inr err → origin repo false ""
| origin_normalized rem url urls remoteURL :
    git.Remote repo "origin" = inl rem →
    git.URLs rem = url :: urls →
    parseRemoteURL url = (remoteURL, None) →
    origin repo true remoteURL.


(** The change the callback appends for a commit whose hash has at
    least 7 characters. *)
Definition changeOf (useURL : bool) (remoteURL : string) (c : git.Commit)
    : Change :=
  {| SHA := String.substring 0 7 (git.Hash c);
     Title := strings.Split (git.Message c) "010" !!! 0;
     URL := if useURL then remoteURL +:+ "/commits/" +:+ git.Hash c else "" |}.

(** A date in four, two and two decimal digits. *)
Definition yyyy_mm_dd (year month day : nat) : string :=
  String (strconv.digit (year / 1000)) (String (strconv.digit (year / 100))
    (String (strconv.digit (year / 10)) (String (strconv.digit year)
      (String "-" (String (strconv.digit (month / 10))
        (String (strconv.digit month)
        (String "-" (String (strconv.digit (day / 10))
          (String (strconv.digit day) ""))))))))).

(** ** Sample repositories *)

Module sample.

Definition fix_bug : git.Commit :=
  {| git.Hash := "abcdef1234567890abcdef1234567890abcdef12";
     git.Message := "Fix bug" +:+ nl +:+ nl +:+ "details" |}.

Definition add_feature : git.Commit :=
  {| git.Hash := "0123456789abcdef0123456789abcdef01234567";
     git.Message := "Add feature" |}.

(** A repository with the given [origin] remote, whose log from HEAD
    yields two commits and then ends as [walk] says. *)
Definition repository (remote : git.RemoteConfig + error)
    (walk : option error) : git.Repository :=
  {| git.Remote := λ name,
       if String.eqb name "origin" then remote
       else inr (errors.New "remote not found");
     git.Head := inl (git.Hash fix_bug);
     git.Log := λ _,
       inl {| git.commits := [fix_bug; add_feature];
              git.failure := walk |} |}.

Definition today : time.Time :=
  {| time.Year := 2026; time.Month := 3; time.Day := 9 |}.

(** A world whose current directory holds [repo] and nothing else
    does. *)
Definition world (repo : git.Repository) : World :=
  {| PlainOpen := λ dir,
       if String.eqb dir "." then inl repo
       else inr (errors.New "repository does not exist");
     Now := today;
     UsageString := "Usage:" |}.

Definition no_remote : git.RemoteConfig + error :=
  inr (errors.New "remote not found").

Definition console0 : console := {| stdout := ""; stderr := "" |}.

End sample.

(** ** Walks that end without error *)

(** The same iterator, repository and world, with every walk ending
    with [io.EOF]. *)
Definition quietIter (iter : git.CommitIter) : git.CommitIter :=
  {| git.commits := git.commits iter; git.failure := None |}.

Definition quietRepository (repo : git.Repository) : git.Repository :=
  {| git.Remote := git.Remote repo;
     git.Head := git.Head repo;
     git.Log := λ ref,
       match git.Log repo ref with
       | inl iter => inl (quietIter iter)
       | inr err => inr err
       end |}.

Definition quietWorld (w : World) : World :=
  {| PlainOpen := λ dir,
       match PlainOpen w dir with
       | inl repo => inl (quietRepository repo)
       | inr err => inr err
       end;
     Now := Now w;
     UsageString := UsageString w |}.

(** * Normalisation on sample URLs *)

Example parse_https :
  parseRemoteURL "https://github.com/acme/widget.git"
  = ("https://github.com/acme/widget", None).
Proof. reflexivity. Qed.

Example parse_ssh :
  parseRemoteURL "git@bitbucket.org:username/repo.git"
  = ("https://bitbucket.org/username/repo", None).
Proof. reflexivity. Qed.

Example parse_https_short :
  parseRemoteURL "https://onlyonepart"
  = ("", Some (errors.New "invalid remote url structure: https://onlyonepart")).
Proof. reflexivity. Qed.

Example parse_ssh_short :
  parseRemoteURL "git@host:onlyrepo"
  = ("", Some (errors.New "invalid remote url structure: git@host:onlyrepo")).
Proof. reflexivity. Qed.

Example parse_other :
  parseRemoteURL "ssh://git@host/ws/repo"
  = ("", Some (errors.New
               "unsupported remote url structure: ssh://git@host/ws/repo")).
Proof. reflexivity. Qed.

Example parse_extra :
  parseRemoteURL "https://host/ws/repo/extra" = ("https://host/ws/repo", None).
Proof. reflexivity. Qed.

Example parse_ssh_colons :
  parseRemoteURL "git@h:w/r:x" = ("https://h/w/r", None).
Proof. reflexivity. Qed.

Example parse_https_dotgit :
  parseRemoteURL "https://h/w/.git" = ("https://h/w/", None).
Proof. reflexivity. Qed.

(** * Strings *)

Section string_facts.
Implicit Types (s t u p : string) (c : ascii).

Lemma append_cons c s t : String c s +:+ t = String c (s +:+ t).
Proof. reflexivity. Qed.

Lemma append_nil_l s : "" +:+ s = s.
Proof. reflexivity. Qed.

Lemma append_nil_r s : s +:+ "" = s.
Proof. induction s as [|c s IH]; [done|]. by rewrite append_cons, IH. Qed.

Lemma append_assoc s t u : (s +:+ t) +:+ u = s +:+ (t +:+ u).
Proof. induction s as [|c s IH]; [done|]. by rewrite !append_cons, IH. Qed.

Lemma length_append s t :
  String.length (s +:+ t) = String.length s + String.length t.
Proof.
  induction s as [|c s IH]; [done|]. rewrite append_cons. simpl.
  by rewrite IH.
Qed.

Lemma append_ne_nil s c t : s +:+ String c t ≠ "".
Proof. by destruct s. Qed.

Lemma substring_0_0 s : String.substring 0 0 s = "".
Proof. by destruct s. Qed.

Lemma substring_0_all s : String.substring 0 (String.length s) s = s.
Proof. induction s as [|c s IH]; [done|]. simpl. by rewrite IH. Qed.

Lemma substring_0_app s t :
  String.substring 0 (String.length s) (s +:+ t) = s.
Proof.
  induction s as [|c s IH]; [apply substring_0_0|].
  rewrite append_cons. simpl. by rewrite IH.
Qed.

Lemma substring_skip_app s t n :
  String.substring (String.length s) n (s +:+ t) = String.substring 0 n t.
Proof. induction s as [|c s IH]; [done|]. by rewrite append_cons. Qed.

Lemma substring_split s n :
  n ≤ String.length s →
  s = String.substring 0 n s
      +:+ String.substring n (String.length s - n) s.
Proof.
  revert n. induction s as [|c s IH]; intros [|n] Hn; simpl in *.
  - done.
  - lia.
  - by rewrite append_nil_l, substring_0_all.
  - rewrite append_cons. f_equal. apply IH. lia.
Qed.

Lemma length_substring_0 s n :
  n ≤ String.length s → String.length (String.substring 0 n s) = n.
Proof.
  revert n. induction s as [|c s IH]; intros [|n] Hn; simpl in *;
    [done|lia|done|].
  rewrite IH; [done|lia].
Qed.

Lemma prefix_append p s : String.prefix p (p +:+ s) = true.
Proof.
  induction p as [|c p IH]; [by destruct s|].
  rewrite append_cons. simpl. by destruct (ascii_dec c c).
Qed.

Lemma prefix_starts_with p s :
  String.prefix p s = true ↔ starts_with p s.
Proof.
  split.
  - revert s. induction p as [|c p IH]; intros s Hp.
    + by exists s.
    + destruct s as [|c' s]; [done|]. simpl in Hp.
      destruct (ascii_dec c c') as [->|]; [|done].
      destruct (IH _ Hp) as [rest ->]. by exists rest.
  - intros [rest ->]. apply prefix_append.
Qed.

Lemma HasPrefix_app p s : strings.HasPrefix (p +:+ s) p = true.
Proof. apply prefix_append. Qed.

Lemma HasPrefix_false p s :
  ¬ starts_with p s → strings.HasPrefix s p = false.
Proof.
  intros Hn. unfold strings.HasPrefix.
  destruct (String.prefix p s) eqn:E; [|done].
  by apply prefix_starts_with in E.
Qed.

Lemma TrimPrefix_app p s : strings.TrimPrefix (p +:+ s) p = s.
Proof.
  unfold strings.TrimPrefix. rewrite HasPrefix_app, substring_skip_app.
  rewrite length_append.
  replace (String.length p + String.length s - String.length p)
    with (String.length s) by lia.
  apply substring_0_all.
Qed.

Lemma HasSuffix_app s q : strings.HasSuffix (s +:+ q) q = true.
Proof.
  unfold strings.HasSuffix. rewrite length_append.
  replace (String.length s + String.length q - String.length q)
    with (String.length s) by lia.
  rewrite substring_skip_app, substring_0_all, String.eqb_refl.
  rewrite andb_true_r. apply Nat.leb_le. lia.
Qed.

Lemma HasSuffix_ends_with s q :
  strings.HasSuffix s q = true ↔ ends_with q s.
Proof.
  split.
  - unfold strings.HasSuffix. intros [Hle Heq]%andb_true_iff.
    apply Nat.leb_le in Hle. apply String.eqb_eq in Heq.
    exists (String.substring 0 (String.length s - String.length q) s).
    pose proof (substring_split s (String.length s - String.length q)) as H.
    replace (String.length s - (String.length s - String.length q))
      with (String.length q) in H by lia.
    rewrite Heq in H. apply H. lia.
  - intros [front ->]. apply HasSuffix_app.
Qed.

Lemma TrimSuffix_app s q : strings.TrimSuffix (s +:+ q) q = s.
Proof.
  unfold strings.TrimSuffix. rewrite HasSuffix_app, length_append.
  replace (String.length s + String.length q - String.length q)
    with (String.length s) by lia.
  apply substring_0_app.
Qed.

Lemma TrimSuffix_id s q : ¬ ends_with q s → strings.TrimSuffix s q = s.
Proof.
  intros Hn. unfold strings.TrimSuffix.
  destruct (strings.HasSuffix s q) eqn:E; [|done].
  by apply HasSuffix_ends_with in E.
Qed.

End string_facts.

(** * Splitting *)

Section split_facts.
Implicit Types (s t : string) (c d : ascii).

Lemma count_append c s t : count c (s +:+ t) = count c s + count c t.
Proof.
  induction s as [|c' s IH]; [done|].
  rewrite append_cons. simpl. rewrite IH. lia.
Qed.

Lemma Split_not_nil s c : strings.Split s c ≠ [].
Proof.
  destruct s as [|c' s]; [done|]. simpl.
  destruct (Ascii.eqb c' c); [done|]. by destruct (strings.Split s c).
Qed.

Lemma length_Split s c : length (strings.Split s c) = S (count c s).
Proof.
  induction s as [|c' s IH]; [done|]. simpl.
  destruct (Ascii.eqb c' c); simpl; [by rewrite IH|].
  pose proof (Split_not_nil s c).
  destruct (strings.Split s c); [done|]. simpl in *. lia.
Qed.

Lemma Split_free s c : count c s = 0 → strings.Split s c = [s].
Proof.
  induction s as [|c' s IH]; [done|]. simpl.
  destruct (Ascii.eqb c' c); [done|]. intros Hs. by rewrite IH.
Qed.

Lemma Split_app s t c :
  count c s = 0 →
  strings.Split (s +:+ String c "" +:+ t) c = s :: strings.Split t c.
Proof.
  induction s as [|c' s IH]; intros Hs.
  - change ("" +:+ String c "" +:+ t) with (String c t).
    simpl. by rewrite Ascii.eqb_refl.
  - rewrite append_cons. simpl in *.
    destruct (Ascii.eqb c' c); [done|]. by rewrite IH.
Qed.

(** A string with an occurrence of [c] is cut at the first one. *)
Lemma cut_first s c :
  0 < count c s →
  ∃ s1 s2,
    s = s1 +:+ String c "" +:+ s2
    ∧ count c s1 = 0 ∧ count c s = S (count c s2).
Proof.
  induction s as [|c' s IH]; simpl; [lia|].
  destruct (Ascii.eqb_spec c' c) as [->|Hc]; simpl.
  - intros _. by exists "", s.
  - intros (s1 & s2 & -> & Hs1 & Hs2)%IH.
    exists (String c' s1), s2. split_and!; [done| |done].
    simpl. by destruct (Ascii.eqb_spec c' c).
Qed.

(** The first piece is a prefix of the string, so it has no more
    occurrences of any byte than the string has. *)
Lemma count_Split_head s c d :
  count d (strings.Split s c !!! 0) ≤ count d s.
Proof.
  induction s as [|c' s IH]; [done|]. simpl.
  destruct (Ascii.eqb c' c); [simpl; lia|].
  pose proof (Split_not_nil s c).
  destruct (strings.Split s c) as [|piece pieces]; [done|].
  change (count d (String c' piece) ≤ count d (String c' s)).
  change (count d piece ≤ count d s) in IH. simpl. lia.
Qed.

End split_facts.

(** * Remote URL normalisation *)

Section parseRemoteURL_facts.
Implicit Types url rest host ws repo seg : string.

(** The HTTPS branch, on the text after the prefix. *)
Lemma parseRemoteURL_https_branch rest :
  parseRemoteURL ("https://" +:+ rest) =
    let parts := strings.Split rest "/" in
    if length parts <? 3 then invalid ("https://" +:+ rest)
    else ("https://" +:+ parts !!! 0 +:+ "/" +:+ parts !!! 1 +:+ "/"
          +:+ strings.TrimSuffix (parts !!! 2) ".git", None).
Proof.
  unfold parseRemoteURL.
  rewrite HasPrefix_app, TrimPrefix_app. simpl.
  destruct (length _ <? 3); [done|]. by rewrite !append_assoc.
Qed.

(** The SSH branch, on the text after the prefix. *)
Lemma parseRemoteURL_ssh_branch rest :
  parseRemoteURL ("git@" +:+ rest) =
    let parts := strings.Split rest ":" in
    if length parts <? 2 then invalid ("git@" +:+ rest)
    else
      let repoParts := strings.Split (parts !!! 1) "/" in
      if length repoParts <? 2 then invalid ("git@" +:+ rest)
      else ("https://" +:+ parts !!! 0 +:+ "/" +:+ repoParts !!! 0 +:+ "/"
            +:+ strings.TrimSuffix (repoParts !!! 1) ".git", None).
Proof.
  unfold parseRemoteURL.
  change (strings.HasPrefix ("git@" +:+ rest) "https://") with false.
  rewrite HasPrefix_app, TrimPrefix_app. simpl.
  destruct (length _ <? 2); [done|].
  destruct (length _ <? 2); [done|]. by rewrite !append_assoc.
Qed.

Lemma parseRemoteURL_other_branch url :
  ¬ starts_with "https://" url → ¬ starts_with "git@" url →
  parseRemoteURL url = unsupported url.
Proof.
  intros H1 H2. unfold parseRemoteURL.
  by rewrite (HasPrefix_false _ _ H1), (HasPrefix_false _ _ H2).
Qed.

End parseRemoteURL_facts.

(** ** The accepted forms *)

(** C3, as amended: for host, workspace and repo non-empty and free of
    ["/"], the input [https://<host>/<workspace>/<repo>.git] is
    normalised to exactly [https://<host>/<workspace>/<repo>], and so is
    the input [https://<host>/<workspace>/<repo>] provided [repo] does
    not itself end in [.git]. *)
Theorem https_normalized (host ws repo : string) :
  host ≠ "" → ws ≠ "" → repo ≠ "" →
  count "/" host = 0 → count "/" ws = 0 → count "/" repo = 0 →
  parseRemoteURL
    ("https://" +:+ host +:+ "/" +:+ ws +:+ "/" +:+ repo +:+ ".git")
  = ("https://" +:+ host +:+ "/" +:+ ws +:+ "/" +:+ repo, None)
  ∧ (¬ ends_with ".git" repo →
     parseRemoteURL ("https://" +:+ host +:+ "/" +:+ ws +:+ "/" +:+ repo)
     = ("https://" +:+ host +:+ "/" +:+ ws +:+ "/" +:+ repo, None)).
Proof.
  intros _ _ _ Hh Hw Hr. split; [|intros Hgit];
    rewrite parseRemoteURL_https_branch, !Split_app by done.
  - rewrite Split_free by (by rewrite count_append, Hr).
    simpl. by rewrite TrimSuffix_app.
  - rewrite Split_free by done. simpl. by rewrite TrimSuffix_id.
Qed.

Lemma https_normalized_witness :
  parseRemoteURL ("https://" +:+ "github.com" +:+ "/" +:+ "acme" +:+ "/"
                  +:+ "widget" +:+ ".git")
  = ("https://" +:+ "github.com" +:+ "/" +:+ "acme" +:+ "/" +:+ "widget", None)
  ∧ parseRemoteURL ("https://" +:+ "github.com" +:+ "/" +:+ "acme" +:+ "/"
                    +:+ "widget")
    = ("https://" +:+ "github.com" +:+ "/" +:+ "acme" +:+ "/" +:+ "widget",
       None).
Proof.
  destruct (https_normalized "github.com" "acme" "widget")
    as [Hgit Hplain]; [done..|].
  split; [exact Hgit|]. apply Hplain.
  by intros H%HasSuffix_ends_with.
Defined.

(** C3, as stated, fails where the repo segment is [.git] itself: the
    only reading of the input has host [h], workspace [w] and repo
    [.git], and the result is [https://h/w/]. *)
Lemma https_repo_dotgit :
  "h" ≠ "" ∧ "w" ≠ "" ∧ ".git" ≠ ""
  ∧ count "/" "h" = 0 ∧ count "/" "w" = 0 ∧ count "/" ".git" = 0
  ∧ parseRemoteURL ("https://" +:+ "h" +:+ "/" +:+ "w" +:+ "/" +:+ ".git")
    = ("https://h/w/", None)
  ∧ parseRemoteURL ("https://" +:+ "h" +:+ "/" +:+ "w" +:+ "/" +:+ ".git")
    ≠ ("https://" +:+ "h" +:+ "/" +:+ "w" +:+ "/" +:+ ".git", None).
Proof. by repeat split. Qed.

(** The HTTPS branch on an input with a fourth segment: what follows
    the third segment is dropped. *)
Lemma parseRemoteURL_https_pieces (host ws seg extra : string) :
  count "/" host = 0 → count "/" ws = 0 → count "/" seg = 0 →
  parseRemoteURL
    ("https://" +:+ host +:+ "/" +:+ ws +:+ "/" +:+ seg +:+ "/" +:+ extra)
  = ("https://" +:+ host +:+ "/" +:+ ws +:+ "/"
     +:+ strings.TrimSuffix seg ".git", None)
  ∧ parseRemoteURL
      ("https://" +:+ host +:+ "/" +:+ ws +:+ "/" +:+ seg +:+ "/" +:+ extra)
    = parseRemoteURL ("https://" +:+ host +:+ "/" +:+ ws +:+ "/" +:+ seg).
Proof.
  intros Hh Hw Hs.
  rewrite !parseRemoteURL_https_branch, !Split_app by done.
  by rewrite (Split_free seg).
Qed.

(** C10: an HTTPS input with more than three ["/"]-separated segments
    after the prefix (at least three ["/"]) is accepted; host,
    workspace and repo are its first three segments and the further
    segments are dropped, so the result is that of the input cut after
    the third segment. *)
Theorem https_extra_segments (rest : string) :
  3 ≤ count "/" rest →
  ∃ host ws seg extra,
    rest = host +:+ "/" +:+ ws +:+ "/" +:+ seg +:+ "/" +:+ extra
    ∧ count "/" host = 0 ∧ count "/" ws = 0 ∧ count "/" seg = 0
    ∧ parseRemoteURL ("https://" +:+ rest)
      = ("https://" +:+ host +:+ "/" +:+ ws +:+ "/"
         +:+ strings.TrimSuffix seg ".git", None)
    ∧ parseRemoteURL ("https://" +:+ rest)
      = parseRemoteURL ("https://" +:+ host +:+ "/" +:+ ws +:+ "/" +:+ seg).
Proof.
  intros Hrest.
  destruct (cut_first rest "/") as (host & r1 & -> & Hhost & H1); [lia|].
  destruct (cut_first r1 "/") as (ws & r2 & -> & Hws & H2); [lia|].
  destruct (cut_first r2 "/") as (seg & extra & -> & Hseg & H3); [lia|].
  exists host, ws, seg, extra. split_and!; [done..| |];
    by apply parseRemoteURL_https_pieces.
Qed.

Lemma https_extra_segments_witness :
  3 ≤ count "/" "host/ws/repo/extra/more"
  ∧ ∃ host ws seg extra,
      "host/ws/repo/extra/more"
      = host +:+ "/" +:+ ws +:+ "/" +:+ seg +:+ "/" +:+ extra
      ∧ count "/" host = 0 ∧ count "/" ws = 0 ∧ count "/" seg = 0
      ∧ parseRemoteURL ("https://" +:+ "host/ws/repo/extra/more")
        = ("https://" +:+ host +:+ "/" +:+ ws +:+ "/"
           +:+ strings.TrimSuffix seg ".git", None)
      ∧ parseRemoteURL ("https://" +:+ "host/ws/repo/extra/more")
        = parseRemoteURL
            ("https://" +:+ host +:+ "/" +:+ ws +:+ "/" +:+ seg).
Proof.
  split; [simpl; lia|].
  apply (https_extra_segments "host/ws/repo/extra/more"). simpl. lia.
Defined.

(** The SSH branch on an input whose pieces are known: the remainder is
    split on every [":"], the first piece is the host and the second
    the path; the path is split on ["/"], and its first two pieces are
    the workspace and the repo. *)
Lemma parseRemoteURL_ssh_pieces (host ws seg tail more : string) :
  count ":" host = 0 →
  count ":" ws = 0 → count "/" ws = 0 →
  count ":" seg = 0 → count "/" seg = 0 →
  (tail = "" ∨ starts_with "/" tail) → count ":" tail = 0 →
  (more = "" ∨ starts_with ":" more) →
  parseRemoteURL
    ("git@" +:+ host +:+ ":" +:+ (ws +:+ "/" +:+ seg +:+ tail) +:+ more)
  = ("https://" +:+ host +:+ "/" +:+ ws +:+ "/"
     +:+ strings.TrimSuffix seg ".git", None).
Proof.
  intros Hh Hwc Hw Hsc Hs Htail Htc Hmore.
  set (path := ws +:+ "/" +:+ seg +:+ tail).
  assert (Hpath : count ":" path = 0).
  { unfold path. by rewrite !count_append, Hwc, Hsc, Htc. }
  assert (∃ pieces,
    strings.Split (host +:+ ":" +:+ path +:+ more) ":"
    = host :: path :: pieces) as [pieces Hparts].
  { rewrite Split_app by done. destruct Hmore as [->|[more' ->]].
    - exists []. by rewrite append_nil_r, Split_free.
    - exists (strings.Split more' ":"). by rewrite Split_app. }
  assert (∃ pieces,
    strings.Split path "/" = ws :: seg :: pieces) as [pieces' Hrepo].
  { unfold path. rewrite Split_app by done.
    destruct Htail as [->|[tail' ->]].
    - exists []. by rewrite append_nil_r, Split_free.
    - exists (strings.Split tail' "/"). by rewrite Split_app. }
  rewrite parseRemoteURL_ssh_branch, Hparts. simpl. by rewrite Hrepo.
Qed.

(** C4, as amended.  On an input [git@<host>:<path><more>], where
    [host] and [path] have no [":"] and [more] is empty or begins with
    [":"], the remainder is split on every [":"] and the first two
    pieces are the host and the path; where [path] is
    [<ws>/<repo><tail>] with [ws] and [repo] free of ["/"] and [tail]
    empty or beginning with ["/"], the first two pieces of the path are
    the workspace and the repo segment, and the result is
    [https://<host>/<ws>/<repo segment without one trailing .git>].  In
    particular [git@<host>:<ws>/<repo>.git] yields
    [https://<host>/<ws>/<repo>] when [host] has no [":"] and [ws] and
    [repo] have neither [":"] nor ["/"], and so does
    [git@<host>:<ws>/<repo>] when moreover [repo] does not end in
    [.git]. *)
Theorem ssh_normalized (host ws repo : string) :
  count ":" host = 0 →
  count ":" ws = 0 → count "/" ws = 0 →
  count ":" repo = 0 → count "/" repo = 0 →
  (∀ tail more,
     (tail = "" ∨ starts_with "/" tail) → count ":" tail = 0 →
     (more = "" ∨ starts_with ":" more) →
     parseRemoteURL
       ("git@" +:+ host +:+ ":" +:+ (ws +:+ "/" +:+ repo +:+ tail) +:+ more)
     = ("https://" +:+ host +:+ "/" +:+ ws +:+ "/"
        +:+ strings.TrimSuffix repo ".git", None))
  ∧ parseRemoteURL
      ("git@" +:+ host +:+ ":" +:+ ws +:+ "/" +:+ repo +:+ ".git")
    = ("https://" +:+ host +:+ "/" +:+ ws +:+ "/" +:+ repo, None)
  ∧ (¬ ends_with ".git" repo →
     parseRemoteURL ("git@" +:+ host +:+ ":" +:+ ws +:+ "/" +:+ repo)
     = ("https://" +:+ host +:+ "/" +:+ ws +:+ "/" +:+ repo, None)).
Proof.
  intros Hh Hwc Hw Hrc Hr. split; [|split].
  - intros tail more ???. by apply parseRemoteURL_ssh_pieces.
  - pose proof (parseRemoteURL_ssh_pieces host ws (repo +:+ ".git") "" "")
      as H.
    rewrite !append_nil_r, TrimSuffix_app in H. apply H; auto.
    all: by rewrite count_append, ?Hrc, ?Hr.
  - intros Hgit.
    pose proof (parseRemoteURL_ssh_pieces host ws repo "" "") as H.
    rewrite !append_nil_r, TrimSuffix_id in H by done. apply H; auto.
Qed.

Lemma ssh_normalized_witness :
  parseRemoteURL
    ("git@" +:+ "github.com" +:+ ":" +:+ "acme" +:+ "/" +:+ "widget" +:+ ".git")
  = ("https://" +:+ "github.com" +:+ "/" +:+ "acme" +:+ "/" +:+ "widget", None)
  ∧ parseRemoteURL
      ("git@" +:+ "github.com" +:+ ":" +:+ "acme" +:+ "/" +:+ "widget")
    = ("https://" +:+ "github.com" +:+ "/" +:+ "acme" +:+ "/" +:+ "widget",
       None).
Proof.
  destruct (ssh_normalized "github.com" "acme" "widget")
    as (_ & Hgit & Hplain); [done..|].
  split; [exact Hgit|]. apply Hplain.
  by intros H%HasSuffix_ends_with.
Defined.

(** C4, as stated, fails on a repo segment with a [":"]: the input
    [git@h:w/r:x] has host [h], workspace [w] and repo [r:x], and the
    text after the second [":"] is dropped from the result. *)
Lemma ssh_second_colon :
  parseRemoteURL ("git@" +:+ "h" +:+ ":" +:+ "w" +:+ "/" +:+ "r:x")
  = ("https://h/w/r", None)
  ∧ parseRemoteURL ("git@" +:+ "h" +:+ ":" +:+ "w" +:+ "/" +:+ "r:x")
    ≠ ("https://" +:+ "h" +:+ "/" +:+ "w" +:+ "/" +:+ "r:x", None).
Proof. by split. Qed.

(** ** The rejected forms *)

(** C5: an input that starts with neither [https://] nor [git@] is
    rejected as unsupported.  An input is rejected as invalid when it
    starts with [https://] and has fewer than three ["/"]-separated
    segments after the prefix (fewer than two ["/"]), when it starts
    with [git@] and has no [":"] after the prefix, and when it starts
    with [git@] and the path after the first [":"] has fewer than two
    ["/"]-separated segments (no ["/"]); so are [https://onlyonepart]
    and [git@host:onlyrepo]. *)
Theorem rejected_urls (url : string) :
  (¬ starts_with "https://" url → ¬ starts_with "git@" url →
   parseRemoteURL url = unsupported url)
  ∧ (∀ rest, url = "https://" +:+ rest → count "/" rest < 2 →
     parseRemoteURL url = invalid url)
  ∧ (∀ rest, url = "git@" +:+ rest → count ":" rest = 0 →
     parseRemoteURL url = invalid url)
  ∧ (∀ host path, url = "git@" +:+ host +:+ ":" +:+ path →
     count ":" host = 0 → count "/" path = 0 →
     parseRemoteURL url = invalid url)
  ∧ parseRemoteURL "https://onlyonepart" = invalid "https://onlyonepart"
  ∧ parseRemoteURL "git@host:onlyrepo" = invalid "git@host:onlyrepo".
Proof.
  split; [apply parseRemoteURL_other_branch|]. repeat split.
  - intros rest -> Hrest. rewrite parseRemoteURL_https_branch.
    cbv zeta. rewrite length_Split.
    by destruct (Nat.ltb_spec (S (count "/" rest)) 3); [|lia].
  - intros rest -> Hrest. rewrite parseRemoteURL_ssh_branch.
    cbv zeta. by rewrite length_Split, Hrest.
  - intros host path -> Hhost Hpath. rewrite parseRemoteURL_ssh_branch.
    cbv zeta. rewrite Split_app by done.
    pose proof (count_Split_head path ":" "/") as Hhead.
    destruct (strings.Split path ":") as [|piece pieces] eqn:E;
      [by apply Split_not_nil in E|].
    simpl in *. rewrite length_Split.
    by destruct (Nat.ltb_spec (S (count "/" piece)) 2); [|lia].
Qed.

Lemma rejected_urls_witness :
  parseRemoteURL "ssh://git@host/ws/repo" = unsupported "ssh://git@host/ws/repo"
  ∧ parseRemoteURL ("https://" +:+ "host/repo")
    = invalid ("https://" +:+ "host/repo")
  ∧ parseRemoteURL ("git@" +:+ "host/ws/repo")
    = invalid ("git@" +:+ "host/ws/repo")
  ∧ parseRemoteURL ("git@" +:+ "host" +:+ ":" +:+ "onlyrepo")
    = invalid ("git@" +:+ "host" +:+ ":" +:+ "onlyrepo").
Proof.
  split; [|split; [|split]].
  - destruct (rejected_urls "ssh://git@host/ws/repo") as [H _].
    apply H; by intros E%prefix_starts_with.
  - destruct (rejected_urls ("https://" +:+ "host/repo"))
      as (_ & H & _).
    apply (H "host/repo"); [done|simpl; lia].
  - destruct (rejected_urls ("git@" +:+ "host/ws/repo"))
      as (_ & _ & H & _).
    by apply (H "host/ws/repo").
  - destruct (rejected_urls
                ("git@" +:+ "host" +:+ ":" +:+ "onlyrepo"))
      as (_ & _ & _ & H & _).
    by apply (H "host" "onlyrepo").
Defined.

(** * Processes *)

Section proc_facts.
Context (A B : Type).
Implicit Types (m : proc A) (k : A → proc B) (con : console).

Lemma bind_Returned m k con con' a :
  m con = (con', Returned a) → (m ≫= k) con = k a con'.
Proof. unfold mbind, proc_bind. by intros ->. Qed.

Lemma bind_Exited m k con con' code :
  m con = (con', Exited code) → (m ≫= k) con = (con', Exited code).
Proof. unfold mbind, proc_bind. by intros ->. Qed.

Lemma bind_Panicked m k con con' p :
  m con = (con', Panicked p) → (m ≫= k) con = (con', Panicked p).
Proof. unfold mbind, proc_bind. by intros ->. Qed.

Lemma bind_ret (a : A) k con : (mret a ≫= k) con = k a con.
Proof. reflexivity. Qed.

Lemma bind_assoc (C : Type) m k (k' : B → proc C) con :
  ((m ≫= k) ≫= k') con = (m ≫= λ a, k a ≫= k') con.
Proof.
  unfold mbind, proc_bind. by destruct (m con) as [con' [a|code|p]].
Qed.

End proc_facts.

(** [bail] on a non-nil error prints the line on standard output and
    exits with status 1; it never returns. *)
Lemma bail_Some (e : error) (con : console) :
  bail (Some e) con
  = ({| stdout := stdout con +:+ nl
                  +:+ red ("error: " +:+ errors.Error e) +:+ nl;
        stderr := stderr con |}, Exited 1).
Proof.
  unfold bail, red. rewrite (bind_Returned _ _ _ _ _ _ tt eq_refl).
  unfold os.Exit. by rewrite !append_assoc.
Qed.

Lemma bail_None (con : console) : bail None con = (con, Returned tt).
Proof. reflexivity. Qed.

(** Whatever follows a [bail] on a non-nil error is not run. *)
Lemma bind_bail (A : Type) (e : error) (m : proc A) (con : console) :
  (bail (Some e);; m) con = bailed e con.
Proof.
  by rewrite (bind_Exited _ _ _ _ con (bailed (A := A) e con).1 1);
    [|rewrite bail_Some].
Qed.

Lemma bind_assoc_bail (A B : Type) (e : error) (m : proc A) (k : A → proc B)
    (con : console) :
  ((bail (Some e);; m) ≫= k) con = bailed e con.
Proof.
  rewrite (bind_Exited _ _ _ _ con (bailed (A := A) e con).1 1); [done|].
  apply bind_bail.
Qed.

(** * The callback and the walk *)

Lemma slice_to_ok (s : string) (n : nat) (con : console) :
  n ≤ String.length s →
  slice_to s n con = (con, Returned (String.substring 0 n s)).
Proof.
  intros Hn. unfold slice_to.
  by destruct (Nat.leb_spec n (String.length s)); [|lia].
Qed.

Lemma slice_to_short (s : string) (n : nat) (con : console) :
  String.length s < n →
  slice_to s n con = (con, Panicked SliceBoundsOutOfRange).
Proof.
  intros Hn. unfold slice_to.
  by destruct (Nat.leb_spec n (String.length s)); [lia|].
Qed.

Lemma onCommit_ok useURL remoteURL c release con :
  7 ≤ String.length (git.Hash c) →
  onCommit useURL remoteURL c release con
  = (con, Returned ({| Version := Version release; Date := Date release;
                       Changes := Changes release
                                  ++ [changeOf useURL remoteURL c] |}, None)).
Proof.
  intros Hc. unfold onCommit.
  by rewrite (bind_Returned _ _ _ _ _ _ _ (slice_to_ok _ _ _ Hc)).
Qed.

Lemma onCommit_short useURL remoteURL c release con :
  String.length (git.Hash c) < 7 →
  onCommit useURL remoteURL c release con
  = (con, Panicked SliceBoundsOutOfRange).
Proof.
  intros Hc. unfold onCommit.
  by rewrite (bind_Panicked _ _ _ _ _ _ _ (slice_to_short _ _ _ Hc)).
Qed.

(** The walk with the callback of [Run]: every commit the iterator
    yields becomes one change, in order, and the error that ended the
    walk is what [ForEach] returns; a hash shorter than 7 characters
    panics. *)
Lemma forEach_onCommit useURL remoteURL cs walk release con :
  git.forEach cs walk (onCommit useURL remoteURL) release con
  = if forallb (λ c, 7 <=? String.length (git.Hash c)) cs
    then (con, Returned ({| Version := Version release; Date := Date release;
                            Changes := Changes release
                                       ++ (changeOf useURL remoteURL <$> cs) |},
                         walk))
    else (con, Panicked SliceBoundsOutOfRange).
Proof.
  revert release. induction cs as [|c cs IH]; intros release.
  - simpl. rewrite app_nil_r. by destruct release.
  - cbn [git.forEach forallb].
    destruct (Nat.leb_spec 7 (String.length (git.Hash c))) as [Hc|Hc].
    + rewrite (bind_Returned _ _ _ _ _ _ _ (onCommit_ok _ _ _ _ _ Hc)).
      cbn [fst snd andb]. rewrite IH. cbn [Version Date Changes].
      by rewrite <-app_assoc.
    + by rewrite (bind_Panicked _ _ _ _ _ _ _ (onCommit_short _ _ _ _ _ Hc)).
Qed.

(** * Dates *)

Section date_facts.
Implicit Types (n x fuel : nat) (acc : string).

Lemma digits_small fuel n acc :
  n < 10 → strconv.digits (S fuel) n acc = String (strconv.digit n) acc.
Proof. intros Hn. simpl. by destruct (Nat.ltb_spec n 10); [|lia]. Qed.

Lemma digits_large fuel n acc :
  10 ≤ n →
  strconv.digits (S fuel) n acc
  = strconv.digits fuel (n / 10) (String (strconv.digit n) acc).
Proof. intros Hn. simpl. by destruct (Nat.ltb_spec n 10); [lia|]. Qed.

Lemma digit_0 n : n < 10 → strconv.digit (n / 10) = "0"%char.
Proof. intros Hn. by rewrite Nat.div_small. Qed.

Lemma itoa_1 x :
  x < 10 → strconv.Itoa x = String (strconv.digit x) "".
Proof. intros Hx. unfold strconv.Itoa. by rewrite digits_small. Qed.

Lemma itoa_2 x :
  10 ≤ x < 100 →
  strconv.Itoa x
  = String (strconv.digit (x / 10)) (String (strconv.digit x) "").
Proof.
  intros [Hlo Hhi]. unfold strconv.Itoa. rewrite digits_large by done.
  destruct x as [|x]; [lia|]. rewrite digits_small; [done|].
  apply Nat.Div0.div_lt_upper_bound. lia.
Qed.

Lemma itoa_3 x :
  100 ≤ x < 1000 →
  strconv.Itoa x
  = String (strconv.digit (x / 100)) (String (strconv.digit (x / 10))
      (String (strconv.digit x) "")).
Proof.
  intros [Hlo Hhi]. unfold strconv.Itoa. rewrite digits_large by lia.
  destruct x as [|[|x]]; [lia..|].
  rewrite digits_large by (apply Nat.div_le_lower_bound; lia).
  rewrite digits_small, Nat.Div0.div_div; [done|].
  rewrite Nat.Div0.div_div. apply Nat.Div0.div_lt_upper_bound. lia.
Qed.

Lemma itoa_4 x :
  1000 ≤ x < 10 * 1000 →
  strconv.Itoa x
  = String (strconv.digit (x / 1000)) (String (strconv.digit (x / 100))
      (String (strconv.digit (x / 10)) (String (strconv.digit x) ""))).
Proof.
  intros [Hlo Hhi]. unfold strconv.Itoa. rewrite digits_large by lia.
  destruct x as [|[|[|x]]]; [lia..|].
  rewrite digits_large by (apply Nat.div_le_lower_bound; lia).
  rewrite digits_large
    by (rewrite Nat.Div0.div_div; apply Nat.div_le_lower_bound; lia).
  rewrite digits_small, !Nat.Div0.div_div; [done|].
  rewrite !Nat.Div0.div_div. apply Nat.Div0.div_lt_upper_bound. lia.
Qed.

Lemma appendInt_2 x :
  x < 100 →
  time.appendInt x 2
  = String (strconv.digit (x / 10)) (String (strconv.digit x) "").
Proof.
  intros Hx. unfold time.appendInt.
  destruct (Nat.lt_ge_cases x 10).
  - by rewrite itoa_1, digit_0.
  - by rewrite itoa_2.
Qed.

Lemma appendInt_4 x :
  x < 10 * 1000 →
  time.appendInt x 4
  = String (strconv.digit (x / 1000)) (String (strconv.digit (x / 100))
      (String (strconv.digit (x / 10)) (String (strconv.digit x) ""))).
Proof.
  intros Hx. unfold time.appendInt.
  destruct (Nat.lt_ge_cases x 10); [|destruct (Nat.lt_ge_cases x 100);
    [|destruct (Nat.lt_ge_cases x 1000)]].
  - by rewrite itoa_1, !Nat.div_small by lia.
  - by rewrite itoa_2, (Nat.div_small x 100), (Nat.div_small x 1000) by lia.
  - by rewrite itoa_3, (Nat.div_small x 1000) by lia.
  - by rewrite itoa_4.
Qed.

Lemma Format_yyyy_mm_dd (t : time.Time) :
  time.Year t < 10 * 1000 → time.Month t < 100 → time.Day t < 100 →
  time.Format_2006_01_02 t
  = yyyy_mm_dd (time.Year t) (time.Month t) (time.Day t).
Proof.
  intros Hy Hm Hd. unfold time.Format_2006_01_02.
  by rewrite appendInt_4, !appendInt_2.
Qed.

End date_facts.

(** * The command *)

#[local] Arguments bail : simpl never.
#[local] Arguments parseRemoteURL : simpl never.
#[local] Arguments time.Format_2006_01_02 : simpl never.
#[local] Arguments executeTemplate : simpl never.
#[local] Arguments git.forEach : simpl never.

Lemma MinimumNArgs_1 (args : list string) :
  args ≠ [] → cobra.MinimumNArgs 1 args = None.
Proof. by destruct args. Qed.

(** [assemble] as a decision tree over what the collaborators return. *)
Lemma assemble_tree (w : World) (dirFlag version : string)
    (rest : list string) (con : console) :
  assemble w dirFlag (version :: rest) con =
    let walk repo useURL remoteURL :=
      match git.Head repo with
      | inr err => bailed (errors.Wrap err "failed to get head ref") con
      | inl ref =>
          match git.Log repo ref with
          | inr err => bailed (errors.Wrap err "failed to get commit log") con
          | inl iter =>
              git.forEach (git.commits iter) (git.failure iter)
                (onCommit useURL remoteURL)
                {| Version := version;
                   Date := time.Format_2006_01_02 (Now w);
                   Changes := [] |} con
          end
      end in
    match PlainOpen w (workdir dirFlag) with
    | inr err => bailed (errors.Wrap err "failed to open git repository") con
    | inl repo =>
        match git.Remote repo "origin" with
        | inr _ => walk repo false ""
        | inl rem =>
            match git.URLs rem with
            | [] => (con, Panicked IndexOutOfRange)
            | url :: _ =>
                match parseRemoteURL url with
                | (_, Some err) => bailed err con
                | (remoteURL, None) => walk repo true remoteURL
                end
            end
        end
    end.
Proof.
  cbv zeta. unfold assemble.
  change (index (version :: rest) 0) with (mret (M := proc) version).
  rewrite (bind_ret _ _). fold (workdir dirFlag).
  assert (Hwalk : ∀ useURL remoteURL repo,
    (ref ← match git.Head repo with
           | inl ref => mret ref
           | inr err =>
               bail (Some (errors.Wrap err "failed to get head ref"));;
               raise NilDereference
           end;
     iter ← match git.Log repo ref with
            | inl iter => mret iter
            | inr err =>
                bail (Some (errors.Wrap err "failed to get commit log"));;
                raise NilDereference
            end;
     git.ForEach iter (onCommit useURL remoteURL)
       {| Version := version;
          Date := time.Format_2006_01_02 (Now w);
          Changes := [] |}) con
    = match git.Head repo with
      | inr err => bailed (errors.Wrap err "failed to get head ref") con
      | inl ref =>
          match git.Log repo ref with
          | inr err => bailed (errors.Wrap err "failed to get commit log") con
          | inl iter =>
              git.forEach (git.commits iter) (git.failure iter)
                (onCommit useURL remoteURL)
                {| Version := version;
                   Date := time.Format_2006_01_02 (Now w);
                   Changes := [] |} con
          end
      end).
  { intros useURL remoteURL repo.
    destruct (git.Head repo) as [ref|err];
      [rewrite (bind_ret _ _)|by rewrite (bind_assoc_bail _)].
    destruct (git.Log repo ref) as [iter|err];
      [by rewrite (bind_ret _ _)|by rewrite (bind_assoc_bail _)]. }
  destruct (PlainOpen w (workdir dirFlag)) as [repo|err];
    [rewrite (bind_ret _ _)|by rewrite (bind_assoc_bail _)].
  destruct (git.Remote repo "origin") as [rem|err];
    [|rewrite (bind_ret _ _); apply Hwalk].
  rewrite (bind_assoc _ _ _).
  destruct (git.URLs rem) as [|url urls]; [done|].
  change (index (url :: urls) 0) with (mret (M := proc) url).
  rewrite (bind_ret _ _).
  destruct (parseRemoteURL url) as [remoteURL [err|]] eqn:Hparse; cbn [fst snd].
  - by rewrite (bind_assoc_bail _).
  - change (bail None) with (mret (M := proc) tt).
    rewrite (bind_assoc _ _ _), !(bind_ret _ _). apply Hwalk.
Qed.

(** [Execute] with at least one argument: what [Run] does, and the
    release printed when it returns. *)
Lemma Execute_args (w : World) (dirFlag version : string)
    (rest : list string) (con : console) :
  Execute w dirFlag (version :: rest) con =
    match assemble w dirFlag (version :: rest) con with
    | (con', Returned r) =>
        ({| stdout := stdout con' +:+ executeTemplate r.1;
            stderr := stderr con' |}, Returned tt)
    | (con', Exited code) => (con', Exited code)
    | (con', Panicked p) => (con', Panicked p)
    end.
Proof.
  unfold Execute, rootCmd_Execute, Run.
  cbn [cobra.MinimumNArgs length Nat.ltb Nat.leb].
  unfold mbind, proc_bind.
  by destruct (assemble w dirFlag (version :: rest) con) as [con' [r|code|p]].
Qed.

(** [Execute] without arguments. *)
Lemma Execute_no_args (w : World) (dirFlag : string) (con : console) :
  ∃ err, cobra.MinimumNArgs 1 [] = Some err
  ∧ Execute w dirFlag [] con
    = ({| stdout := stdout con +:+ nl +:+ red ("error: " +:+ errors.Error err)
                    +:+ nl;
          stderr := (stderr con +:+ "Error: " +:+ errors.Error err +:+ nl)
                    +:+ UsageString w +:+ nl |}, Exited 1).
Proof.
  eexists. split; [reflexivity|].
  unfold Execute, rootCmd_Execute.
  cbn [cobra.MinimumNArgs length Nat.ltb Nat.leb].
  erewrite (bind_Returned _ _); [|reflexivity]. by rewrite bail_Some.
Qed.

(** ** Failures *)




(** C2: a walk that fails after the first two commits.  The error
    [ForEach] returns is dropped: the changelog of the commits read so
    far is printed on standard output, no error line is, and [Execute]
    returns normally instead of exiting with status 1. *)
Theorem walk_error_dropped :
  let w := sample.world
             (sample.repository sample.no_remote
                (Some (errors.New "object not found"))) in
  Execute w "." ["1.2.0"] sample.console0
  = ({| stdout := nl +:+ "## [1.2.0] - 2026-03-09" +:+ nl
                  +:+ nl +:+ "- Fix bug [abcdef1]"
                  +:+ nl +:+ "- Add feature [0123456]" +:+ nl;
        stderr := "" |}, Returned tt)
  ∧ Execute w "." ["1.2.0"] sample.console0
    = Execute (sample.world (sample.repository sample.no_remote None))
        "." ["1.2.0"] sample.console0.
Proof. by split. Qed.

(** ** Changes *)

(** C7: for a commit whose hash has at least 7 characters the callback
    appends one change; its sha is the first 7 characters of the hash,
    so it has exactly 7 characters; its title is the commit message up
    to the first line break, the whole message when there is no line
    break, and empty when the message is empty. *)
Theorem change_sha_title (useURL : bool) (remoteURL : string)
    (c : git.Commit) (release : Release) (con : console) :
  7 ≤ String.length (git.Hash c) →
  ∃ change,
    onCommit useURL remoteURL c release con
    = (con, Returned ({| Version := Version release; Date := Date release;
                         Changes := Changes release ++ [change] |}, None))
    ∧ starts_with (SHA change) (git.Hash c)
    ∧ String.length (SHA change) = 7
    ∧ (∀ title rest,
         git.Message c = title +:+ nl +:+ rest → count "010" title = 0 →
         Title change = title)
    ∧ (count "010" (git.Message c) = 0 → Title change = git.Message c)
    ∧ (git.Message c = "" → Title change = "").
Proof.
  intros Hc. exists (changeOf useURL remoteURL c).
  split; [by apply onCommit_ok|]. cbn [changeOf SHA Title].
  split; [|split; [|split; [|split]]].
  - eexists. by apply substring_split.
  - by apply length_substring_0.
  - intros title rest -> Htitle. unfold nl. by rewrite Split_app.
  - intros Hm. by rewrite Split_free.
  - by intros ->.
Qed.

Lemma change_sha_title_witness :
  ∃ change,
    onCommit false "" sample.fix_bug
      {| Version := "1.2.0"; Date := "2026-03-09"; Changes := [] |}
      sample.console0
    = (sample.console0,
       Returned ({| Version := "1.2.0"; Date := "2026-03-09";
                    Changes := [] ++ [change] |}, None))
    ∧ SHA change = "abcdef1" ∧ Title change = "Fix bug".
Proof.
  destruct (change_sha_title false "" sample.fix_bug
              {| Version := "1.2.0"; Date := "2026-03-09"; Changes := [] |}
              sample.console0) as (change & Hrun & _ & _ & Htitle & _).
  { simpl. lia. }
  exists change. split; [exact Hrun|]. split.
  - cbv in Hrun. by simplify_eq.
  - by apply (Htitle "Fix bug" (nl +:+ "details")).
Defined.

(** C6: when the release is assembled, either the remote named origin
    exists, its first URL normalises to [remoteURL], and the changes
    are those of the commits read, each with the non-empty url
    [remoteURL/commits/<full hash>]; or there is no such remote and
    every change has an empty url. *)
Theorem release_urls (w : World) (dirFlag : string) (args : list string)
    (con con' : console) (release : Release) (err : option error) :
  assemble w dirFlag args con = (con', Returned (release, err)) →
  ∃ repo ref iter,
    PlainOpen w (workdir dirFlag) = inl repo
    ∧ git.Head repo = inl ref
    ∧ git.Log repo ref = inl iter
    ∧ ((∃ rem url urls remoteURL,
          git.Remote repo "origin" = inl rem
          ∧ git.URLs rem = url :: urls
          ∧ parseRemoteURL url = (remoteURL, None)
          ∧ Forall2 (λ c change,
                       URL change
                       = remoteURL +:+ "/commits/" +:+ git.Hash c
                       ∧ URL change ≠ "")
              (git.commits iter) (Changes release))
       ∨ ((∃ e, git.Remote repo "origin" = inr e)
          ∧ length (Changes release) = length (git.commits iter)
          ∧ Forall (λ change, URL change = "") (Changes release))).
Proof.
  destruct args as [|version rest]; [done|].
  rewrite assemble_tree. cbv zeta.
  destruct (PlainOpen w (workdir dirFlag)) as [repo|e]; [|done].
  assert (Hwalk : ∀ useURL remoteURL,
    match git.Head repo with
    | inl ref =>
        match git.Log repo ref with
        | inl iter =>
            git.forEach (git.commits iter) (git.failure iter)
              (onCommit useURL remoteURL)
              {| Version := version;
                 Date := time.Format_2006_01_02 (Now w);
                 Changes := [] |} con
        | inr e => bailed (errors.Wrap e "failed to get commit log") con
        end
    | inr e => bailed (errors.Wrap e "failed to get head ref") con
    end = (con', Returned (release, err)) →
    ∃ ref iter,
      git.Head repo = inl ref ∧ git.Log repo ref = inl iter
      ∧ Changes release = changeOf useURL remoteURL <$> git.commits iter).
  { intros useURL remoteURL.
    destruct (git.Head repo) as [ref|e]; [|done].
    destruct (git.Log repo ref) as [iter|e] eqn:Hlog; [|done].
    rewrite forEach_onCommit. destruct (forallb _ _); [|done].
    intros [= _ <- _]. by exists ref, iter. }
  destruct (git.Remote repo "origin") as [rem|e] eqn:Hrem.
  - destruct (git.URLs rem) as [|url urls] eqn:Hurls; [done|].
    destruct (parseRemoteURL url) as [remoteURL [e|]] eqn:Hparse; [done|].
    intros (ref & iter & Hhead & Hlog & ->)%Hwalk.
    exists repo, ref, iter. split_and!; [done..|]. left.
    exists rem, url, urls, remoteURL. split_and!; [done..|].
    apply Forall2_fmap_r, Forall_Forall2_diag, Forall_forall.
    intros c _. split; [done|]. cbn. apply append_ne_nil.
  - intros (ref & iter & Hhead & Hlog & ->)%Hwalk.
    exists repo, ref, iter. split_and!; [done..|]. right.
    split_and!; [by exists e|by rewrite length_fmap|].
    by apply Forall_fmap, Forall_forall.
Qed.

Lemma release_urls_witness :
  ∃ release,
    (assemble
       (sample.world
          (sample.repository
             (inl {| git.URLs := ["git@github.com:acme/widget.git"] |}) None))
       "" ["1.2.0"] sample.console0).2 = Returned (release, None)
    ∧ Forall2 (λ c change,
                 URL change
                 = "https://github.com/acme/widget" +:+ "/commits/"
                   +:+ git.Hash c)
        [sample.fix_bug; sample.add_feature] (Changes release).
Proof.
  eexists. split; [reflexivity|].
  destruct (release_urls
    (sample.world
       (sample.repository
          (inl {| git.URLs := ["git@github.com:acme/widget.git"] |}) None))
    "" ["1.2.0"] sample.console0 _ _ _ eq_refl)
    as (repo & ref & iter & Hopen & Hhead & Hlog & Hurls).
  cbv in Hopen. simplify_eq. cbv in Hlog. simplify_eq.
  destruct Hurls as [(rem & url & urls & remoteURL & Hrem & Hurl & Hparse & H)
                    |[[e He] _]].
  - cbv in Hrem. simplify_eq. cbv in Hurl. simplify_eq.
    cbv in Hparse. simplify_eq.
    eapply Forall2_impl; [exact H|]. by intros c change [-> _].
  - cbv in He. done.
Defined.

(** ** The origin remote *)

(** C9: when the remote named origin exists, [Run] indexes the first
    element of its URL list unchecked.  With an empty list the
    invocation panics with an index out of range, before anything is
    printed, rather than exiting through [bail]; with at least one URL
    it does not. *)
Theorem origin_urls_unchecked (w : World) (dirFlag version : string)
    (rest : list string) (repo : git.Repository) (rem : git.RemoteConfig)
    (con : console) :
  PlainOpen w (workdir dirFlag) = inl repo →
  git.Remote repo "origin" = inl rem →
  (git.URLs rem = [] →
   Execute w dirFlag (version :: rest) con = (con, Panicked IndexOutOfRange))
  ∧ (git.URLs rem ≠ [] →
     (Execute w dirFlag (version :: rest) con).2 ≠ Panicked IndexOutOfRange).
Proof.
  intros Hopen Hrem.
  rewrite Execute_args, assemble_tree. cbv zeta. rewrite Hopen, Hrem.
  split; [by intros ->|]. intros Hurls.
  destruct (git.URLs rem) as [|url urls]; [done|].
  destruct (parseRemoteURL url) as [remoteURL [e|]]; [done|].
  destruct (git.Head repo) as [ref|e]; [|done].
  destruct (git.Log repo ref) as [iter|e]; [|done].
  rewrite forEach_onCommit. by destruct (forallb _ _).
Qed.

Lemma origin_urls_unchecked_witness :
  Execute (sample.world (sample.repository (inl {| git.URLs := [] |}) None))
    "." ["1.2.0"] sample.console0
  = (sample.console0, Panicked IndexOutOfRange)
  ∧ (Execute
       (sample.world
          (sample.repository
             (inl {| git.URLs := ["https://github.com/acme/widget"] |}) None))
       "." ["1.2.0"] sample.console0).2 ≠ Panicked IndexOutOfRange.
Proof.
  split.
  - by apply (origin_urls_unchecked _ _ _ _
                (sample.repository (inl {| git.URLs := [] |}) None)
                {| git.URLs := [] |}).
  - by apply (origin_urls_unchecked _ _ _ _
                (sample.repository
                   (inl {| git.URLs := ["https://github.com/acme/widget"] |})
                   None)
                {| git.URLs := ["https://github.com/acme/widget"] |}).
Defined.

(** ** The date *)

(** The clock reaches the output through the heading only: either the
    invocation does not depend on it, or it prints a release whose
    heading carries the date. *)
Lemma Execute_clock (open : string → git.Repository + error)
    (usage dirFlag : string) (args : list string) (con : console) :
  (∃ r, ∀ t,
     Execute {| PlainOpen := open; Now := t; UsageString := usage |}
       dirFlag args con = r)
  ∨ (∃ version entries,
       args !! 0 = Some version
       ∧ ∀ t,
           Execute {| PlainOpen := open; Now := t; UsageString := usage |}
             dirFlag args con
           = ({| stdout := stdout con +:+ nl +:+ "## [" +:+ version +:+ "] - "
                           +:+ time.Format_2006_01_02 t +:+ nl +:+ entries
                           +:+ nl;
                 stderr := stderr con |}, Returned tt)).
Proof.
  destruct args as [|version rest].
  { left. eexists. intros t.
    destruct (Execute_no_args
      {| PlainOpen := open; Now := t; UsageString := usage |} dirFlag con)
      as (e & [= <-] & ->).
    cbn [UsageString]. reflexivity. }
  assert (Hwalk : ∀ repo useURL remoteURL,
    (∃ r, ∀ t,
       match git.Head repo with
       | inl ref =>
           match git.Log repo ref with
           | inl iter =>
               git.forEach (git.commits iter) (git.failure iter)
                 (onCommit useURL remoteURL)
                 {| Version := version;
                    Date := time.Format_2006_01_02 t;
                    Changes := [] |} con
           | inr e => bailed (errors.Wrap e "failed to get commit log") con
           end
       | inr e => bailed (errors.Wrap e "failed to get head ref") con
       end = r)
    ∨ (∃ changes walk, ∀ t,
       match git.Head repo with
       | inl ref =>
           match git.Log repo ref with
           | inl iter =>
               git.forEach (git.commits iter) (git.failure iter)
                 (onCommit useURL remoteURL)
                 {| Version := version;
                    Date := time.Format_2006_01_02 t;
                    Changes := [] |} con
           | inr e => bailed (errors.Wrap e "failed to get commit log") con
           end
       | inr e => bailed (errors.Wrap e "failed to get head ref") con
       end = (con, Returned ({| Version := version;
                                Date := time.Format_2006_01_02 t;
                                Changes := changes |}, walk)))).
  { intros repo useURL remoteURL.
    destruct (git.Head repo) as [ref|e]; [|left; by eexists].
    destruct (git.Log repo ref) as [iter|e]; [|left; by eexists].
    destruct (forallb (λ c, 7 <=? String.length (git.Hash c))
                (git.commits iter)) eqn:Hlong.
    - right. eexists _, _. intros t. rewrite forEach_onCommit, Hlong.
      cbn [Version Date Changes app]. reflexivity.
    - left. eexists. intros t. by rewrite forEach_onCommit, Hlong. }
  assert (Hrun : ∀ repo useURL remoteURL,
    open (workdir dirFlag) = inl repo →
    (∀ t,
       assemble {| PlainOpen := open; Now := t; UsageString := usage |}
         dirFlag (version :: rest) con
       = match git.Head repo with
         | inl ref =>
             match git.Log repo ref with
             | inl iter =>
                 git.forEach (git.commits iter) (git.failure iter)
                   (onCommit useURL remoteURL)
                   {| Version := version;
                      Date := time.Format_2006_01_02 t;
                      Changes := [] |} con
             | inr e => bailed (errors.Wrap e "failed to get commit log") con
             end
         | inr e => bailed (errors.Wrap e "failed to get head ref") con
         end) →
    (∃ r, ∀ t,
       Execute {| PlainOpen := open; Now := t; UsageString := usage |}
         dirFlag (version :: rest) con = r)
    ∨ (∃ version' entries,
         (version :: rest) !! 0 = Some version'
         ∧ ∀ t,
             Execute {| PlainOpen := open; Now := t; UsageString := usage |}
               dirFlag (version :: rest) con
             = ({| stdout := stdout con +:+ nl +:+ "## [" +:+ version'
                             +:+ "] - " +:+ time.Format_2006_01_02 t +:+ nl
                             +:+ entries +:+ nl;
                   stderr := stderr con |}, Returned tt))).
  { intros repo useURL remoteURL Hopen Hassemble.
    destruct (Hwalk repo useURL remoteURL)
      as [[r Hr]|(changes & walk & Hr)].
    - left. eexists. intros t. by rewrite Execute_args, Hassemble, Hr.
    - right. exists version, (String.concat "" (executeChange <$> changes)).
      split; [done|]. intros t.
      by rewrite Execute_args, Hassemble, Hr. }
  destruct (open (workdir dirFlag)) as [repo|e] eqn:Hopen.
  2:{ left. eexists. intros t.
      rewrite Execute_args, assemble_tree. cbv zeta. cbn [PlainOpen].
      by rewrite Hopen. }
  destruct (git.Remote repo "origin") as [rem|e] eqn:Hrem.
  2:{ apply (Hrun repo false ""); [done|]. intros t.
      rewrite assemble_tree. cbv zeta. cbn [PlainOpen Now].
      by rewrite Hopen, Hrem. }
  destruct (git.URLs rem) as [|url urls] eqn:Hurls.
  { left. eexists. intros t.
    rewrite Execute_args, assemble_tree. cbv zeta. cbn [PlainOpen].
    by rewrite Hopen, Hrem, Hurls. }
  destruct (parseRemoteURL url) as [remoteURL [e|]] eqn:Hparse.
  { left. eexists. intros t.
    rewrite Execute_args, assemble_tree. cbv zeta. cbn [PlainOpen].
    by rewrite Hopen, Hrem, Hurls, Hparse. }
  apply (Hrun repo true remoteURL); [done|]. intros t.
  rewrite assemble_tree. cbv zeta. cbn [PlainOpen Now].
  by rewrite Hopen, Hrem, Hurls, Hparse.
Qed.



(** C8: two invocations with the same arguments on the same repository
    end the same way and write the same on standard error; on standard
    output they write the same text, or the same text but for the date
    in the heading, which is the date of the clock.  For a year below
    10000 that date is four digits, a dash, two digits, a dash and two
    digits. *)
Theorem output_date_only (open : string → git.Repository + error)
    (usage dirFlag : string) (args : list string) (con : console) :
  let run t :=
    Execute {| PlainOpen := open; Now := t; UsageString := usage |}
      dirFlag args con in
  (∀ t1 t2, (run t1).2 = (run t2).2
            ∧ stderr (run t1).1 = stderr (run t2).1)
  ∧ ((∀ t1 t2, stdout (run t1).1 = stdout (run t2).1)
     ∨ ∃ version entries,
         args !! 0 = Some version
         ∧ ∀ t, stdout (run t).1
                = stdout con +:+ nl +:+ "## [" +:+ version +:+ "] - "
                  +:+ time.Format_2006_01_02 t +:+ nl +:+ entries +:+ nl)
  ∧ (∀ t,
       time.Year t < 10 * 1000 → time.Month t < 100 → time.Day t < 100 →
          time.Format_2006_01_02 t
          = yyyy_mm_dd (time.Year t) (time.Month t) (time.Day t)).
Proof.
  cbv zeta. split; [|split; [|apply Format_yyyy_mm_dd]].
  - intros t1 t2.
    destruct (Execute_clock open usage dirFlag args con)
      as [[r Hr]|(version & entries & _ & Hr)]; by rewrite !Hr.
  - destruct (Execute_clock open usage dirFlag args con)
      as [[r Hr]|(version & entries & Hargs & Hr)].
    + left. intros t1 t2. by rewrite !Hr.
    + right. exists version, entries. split; [done|].
      intros t. by rewrite Hr.
Qed.

Lemma output_date_only_witness :
  time.Format_2006_01_02 sample.today = "2026-03-09".
Proof.
  destruct (output_date_only (PlainOpen (sample.world
              (sample.repository sample.no_remote None)))
              "Usage:" "." ["1.2.0"] sample.console0) as (_ & _ & Hformat).
  rewrite (Hformat sample.today); [done|simpl; lia..].
Defined.

(** * Further properties of the normalisation *)

(** The first piece of a split: the text before the first separator. *)
Lemma Split_head s c :
  ∃ more,
    s = strings.Split s c !!! 0 +:+ more
    ∧ count c (strings.Split s c !!! 0) = 0
    ∧ (more = "" ∨ starts_with (String c "") more).
Proof.
  destruct (Nat.eq_0_gt_0_cases (count c s)) as [Hs|Hs].
  - exists "". rewrite Split_free by done. cbn.
    by rewrite append_nil_r; auto.
  - destruct (cut_first s c Hs) as (s1 & s2 & -> & Hs1 & _).
    exists (String c "" +:+ s2). rewrite Split_app by done. cbn.
    split_and!; [done..|]. right. by exists s2.
Qed.

(** X1: whatever the input, [parseRemoteURL] returns either a string
    that starts with [https://] and no error, or the empty string and
    one of its two errors, whose message ends with the input. *)
Theorem parseRemoteURL_outcomes (url : string) :
  (∃ repoURL,
     parseRemoteURL url = (repoURL, None) ∧ starts_with "https://" repoURL)
  ∨ parseRemoteURL url = invalid url
  ∨ parseRemoteURL url = unsupported url.
Proof.
  destruct (strings.HasPrefix url "https://") eqn:Hhttps.
  { apply prefix_starts_with in Hhttps as [rest ->].
    rewrite parseRemoteURL_https_branch. cbv zeta.
    destruct (_ <? 3); [by right; left|].
    left. eexists. split; [done|]. by eexists. }
  destruct (strings.HasPrefix url "git@") eqn:Hssh.
  { apply prefix_starts_with in Hssh as [rest ->].
    rewrite parseRemoteURL_ssh_branch. cbv zeta.
    destruct (_ <? 2); [by right; left|].
    destruct (_ <? 2); [by right; left|].
    left. eexists. split; [done|]. by eexists. }
  right; right. apply parseRemoteURL_other_branch.
  - intros H%prefix_starts_with. unfold strings.HasPrefix in Hhttps. congruence.
  - intros H%prefix_starts_with. unfold strings.HasPrefix in Hssh. congruence.
Qed.

(** X2: the inputs [parseRemoteURL] accepts.  It returns no error
    exactly when the input is [https://] followed by at least two
    ["/"], or [git@<host>:<path><more>] where [host] and [path] have no
    [":"], [more] is empty or begins with [":"], and [path] has a
    ["/"]. *)
Theorem parseRemoteURL_accepts (url : string) :
  (parseRemoteURL url).2 = None ↔
  (∃ rest, url = "https://" +:+ rest ∧ 2 ≤ count "/" rest)
  ∨ (∃ host path more,
       url = "git@" +:+ host +:+ ":" +:+ path +:+ more
       ∧ count ":" host = 0 ∧ count ":" path = 0
       ∧ (more = "" ∨ starts_with ":" more)
       ∧ 1 ≤ count "/" path).
Proof.
  split.
  - destruct (strings.HasPrefix url "https://") eqn:Hhttps.
    { apply prefix_starts_with in Hhttps as [rest ->].
      rewrite parseRemoteURL_https_branch. cbv zeta.
      rewrite length_Split.
      destruct (Nat.ltb_spec (S (count "/" rest)) 3); [done|].
      intros _. left. exists rest. split; [done|lia]. }
    destruct (strings.HasPrefix url "git@") eqn:Hssh.
    { apply prefix_starts_with in Hssh as [rest ->].
      rewrite parseRemoteURL_ssh_branch. cbv zeta.
      rewrite length_Split.
      destruct (Nat.ltb_spec (S (count ":" rest)) 2); [done|].
      destruct (cut_first rest ":") as (host & tail & -> & Hhost & _);
        [lia|].
      rewrite Split_app by done.
      destruct (Split_head tail ":") as (more & Htail & Hpath & Hmore).
      destruct (strings.Split tail ":") as [|path pieces] eqn:E;
        [by apply Split_not_nil in E|].
      cbn in Htail, Hpath |- *. rewrite length_Split.
      destruct (Nat.leb_spec (S (count "/" path)) 1); [done|].
      intros _. right. exists host, path, more.
      split_and!; [by rewrite Htail|done..|lia]. }
    unfold parseRemoteURL. by rewrite Hhttps, Hssh.
  - intros [(rest & -> & Hrest)
           |(host & path & more & -> & Hhost & Hpath & Hmore & Hslash)].
    + rewrite parseRemoteURL_https_branch. cbv zeta. rewrite length_Split.
      by destruct (Nat.ltb_spec (S (count "/" rest)) 3); [lia|].
    + rewrite parseRemoteURL_ssh_branch. cbv zeta.
      assert (∃ pieces,
        strings.Split (host +:+ ":" +:+ path +:+ more) ":"
        = host :: path :: pieces) as [pieces ->].
      { rewrite Split_app by done. destruct Hmore as [->|[more' ->]].
        - exists []. by rewrite append_nil_r, Split_free.
        - exists (strings.Split more' ":"). by rewrite Split_app. }
      cbn. rewrite length_Split.
      by destruct (Nat.leb_spec (S (count "/" path)) 1); [lia|].
Qed.

(** X3: the SSH and the HTTPS form of the same remote are normalised
    alike: for a host without [":"] and ["/"] and a workspace and a
    third segment without either, [git@<host>:<ws>/<seg>] and
    [https://<host>/<ws>/<seg>] give the same result. *)
Theorem parseRemoteURL_forms_agree (host ws seg : string) :
  count ":" host = 0 → count "/" host = 0 →
  count ":" ws = 0 → count "/" ws = 0 →
  count ":" seg = 0 → count "/" seg = 0 →
  parseRemoteURL ("git@" +:+ host +:+ ":" +:+ ws +:+ "/" +:+ seg)
  = parseRemoteURL ("https://" +:+ host +:+ "/" +:+ ws +:+ "/" +:+ seg).
Proof.
  intros Hhc Hh Hwc Hw Hsc Hs.
  pose proof (parseRemoteURL_ssh_pieces host ws seg "" "") as Hssh.
  rewrite !append_nil_r in Hssh. rewrite Hssh by auto.
  rewrite parseRemoteURL_https_branch, !Split_app, Split_free by done.
  done.
Qed.

Lemma parseRemoteURL_forms_agree_witness :
  parseRemoteURL ("git@" +:+ "github.com" +:+ ":" +:+ "acme" +:+ "/"
                  +:+ "widget.git")
  = parseRemoteURL ("https://" +:+ "github.com" +:+ "/" +:+ "acme" +:+ "/"
                    +:+ "widget.git").
Proof.
  by apply (parseRemoteURL_forms_agree "github.com" "acme" "widget.git").
Defined.

(** * Further properties of the command *)

Lemma forallb_long (cs : list git.Commit) :
  Forall (λ c, 7 ≤ String.length (git.Hash c)) cs →
  forallb (λ c, 7 <=? String.length (git.Hash c)) cs = true.
Proof.
  induction 1 as [|c cs Hc _ IH]; [done|]. cbn [forallb].
  rewrite IH, andb_true_r. by apply Nat.leb_le.
Qed.



(** X6: an invocation returns, exits with status 1, or panics on the
    index into the URL list or on the slice of a hash; it never exits
    with another status, and it never goes on with the nil pointer
    left by a failed call, because [bail] does not return. *)
Theorem Execute_outcomes (w : World) (dirFlag : string)
    (args : list string) (con : console) :
  (Execute w dirFlag args con).2 = Returned tt
  ∨ (Execute w dirFlag args con).2 = Exited 1
  ∨ (Execute w dirFlag args con).2 = Panicked IndexOutOfRange
  ∨ (Execute w dirFlag args con).2 = Panicked SliceBoundsOutOfRange.
Proof.
  destruct args as [|version rest].
  { destruct (Execute_no_args w dirFlag con) as (e & _ & ->). auto. }
  rewrite Execute_args, assemble_tree. cbv zeta.
  destruct (PlainOpen w (workdir dirFlag)) as [repo|e]; [|by auto].
  set (finish := λ r : console * outcome (Release * option error),
    match r with
    | (con', Returned r) =>
        ({| stdout := stdout con' +:+ executeTemplate r.1;
            stderr := stderr con' |}, Returned tt)
    | (con', Exited code) => (con', Exited code)
    | (con', Panicked p) => (con', Panicked p)
    end).
  assert (Hwalk : ∀ useURL remoteURL,
    let r := finish
      match git.Head repo with
      | inl ref =>
          match git.Log repo ref with
          | inl iter =>
              git.forEach (git.commits iter) (git.failure iter)
                (onCommit useURL remoteURL)
                {| Version := version;
                   Date := time.Format_2006_01_02 (Now w);
                   Changes := [] |} con
          | inr e => bailed (errors.Wrap e "failed to get commit log") con
          end
      | inr e => bailed (errors.Wrap e "failed to get head ref") con
      end in
    r.2 = Returned tt ∨ r.2 = Exited 1
    ∨ r.2 = Panicked IndexOutOfRange
    ∨ r.2 = Panicked SliceBoundsOutOfRange).
  { intros useURL remoteURL.
    destruct (git.Head repo) as [ref|e]; [|by cbn; auto].
    destruct (git.Log repo ref) as [iter|e]; [|by cbn; auto].
    rewrite forEach_onCommit. destruct (forallb _ _); cbn; auto. }
  destruct (git.Remote repo "origin") as [rem|e]; [|apply Hwalk].
  destruct (git.URLs rem) as [|url urls]; [by cbn; auto|].
  destruct (parseRemoteURL url) as [remoteURL [e|]];
    [by cbn; auto|apply Hwalk].
Qed.

(** X7: the run that succeeds.  When the repository opens, the remote
    named origin is missing or its first URL normalises, HEAD resolves,
    the log starts and every hash has at least 7 characters, the
    invocation returns, having written to standard output exactly the
    release of the first argument, the date of the clock and one change
    per commit in the order of the walk. *)
Theorem Execute_success (w : World) (dirFlag version : string)
    (rest : list string) (con : console) (repo : git.Repository)
    (useURL : bool) (remoteURL ref : string) (iter : git.CommitIter) :
  PlainOpen w (workdir dirFlag) = inl repo →
  origin repo useURL remoteURL →
  git.Head repo = inl ref →
  git.Log repo ref = inl iter →
  Forall (λ c, 7 ≤ String.length (git.Hash c)) (git.commits iter) →
  Execute w dirFlag (version :: rest) con
  = ({| stdout :=
          stdout con
          +:+ executeTemplate
                {| Version := version;
                   Date := time.Format_2006_01_02 (Now w);
                   Changes := changeOf useURL remoteURL <$> git.commits iter |};
        stderr := stderr con |}, Returned tt).
Proof.
  intros Hopen Horigin Hhead Hlog Hlong.
  rewrite Execute_args, assemble_tree. cbv zeta. rewrite Hopen.
  destruct Horigin as [e ->|rem url urls remoteURL -> -> ->];
    by rewrite Hhead, Hlog, forEach_onCommit, forallb_long.
Qed.

Lemma Execute_success_witness :
  Execute
    (sample.world
       (sample.repository
          (inl {| git.URLs := ["git@github.com:acme/widget.git"] |}) None))
    "" ["1.2.0"] sample.console0
  = ({| stdout :=
          stdout sample.console0
          +:+ executeTemplate
                {| Version := "1.2.0";
                   Date := time.Format_2006_01_02 sample.today;
                   Changes :=
                     changeOf true "https://github.com/acme/widget"
                     <$> [sample.fix_bug; sample.add_feature] |};
        stderr := stderr sample.console0 |}, Returned tt).
Proof.
  assert (Horigin : origin
    (sample.repository
       (inl {| git.URLs := ["git@github.com:acme/widget.git"] |}) None)
    true "https://github.com/acme/widget").
  { by apply (origin_normalized _
                {| git.URLs := ["git@github.com:acme/widget.git"] |}
                "git@github.com:acme/widget.git" []). }
  assert (Hlong : Forall (λ c, 7 ≤ String.length (git.Hash c))
                    [sample.fix_bug; sample.add_feature]).
  { constructor; [simpl; lia|]. constructor; [simpl; lia|]. constructor. }
  exact (Execute_success
           (sample.world
              (sample.repository
                 (inl {| git.URLs := ["git@github.com:acme/widget.git"] |})
                 None))
           "" "1.2.0" [] sample.console0 _ true
           "https://github.com/acme/widget" (git.Hash sample.fix_bug)
           {| git.commits := [sample.fix_bug; sample.add_feature];
              git.failure := None |}
           eq_refl Horigin eq_refl eq_refl Hlong).
Defined.

(** X8: how the walk ends does not matter.  An invocation behaves as
    in the world where every walk ends without error: the error
    [ForEach] returns never reaches [bail]. *)
Theorem Execute_walk_end (w : World) (dirFlag : string)
    (args : list string) (con : console) :
  Execute w dirFlag args con = Execute (quietWorld w) dirFlag args con.
Proof.
  destruct args as [|version rest].
  { by destruct (Execute_no_args w dirFlag con) as (e & [= <-] & ->),
      (Execute_no_args (quietWorld w) dirFlag con) as (e' & [= <-] & ->). }
  rewrite !Execute_args, !assemble_tree. cbv zeta.
  cbn [quietWorld PlainOpen Now].
  destruct (PlainOpen w (workdir dirFlag)) as [repo|e]; [|done].
  cbn [quietRepository git.Remote git.Head git.Log].
  assert (Hwalk : ∀ useURL remoteURL,
    match
      match git.Head repo with
      | inl ref =>
          match git.Log repo ref with
          | inl iter =>
              git.forEach (git.commits iter) (git.failure iter)
                (onCommit useURL remoteURL)
                {| Version := version;
                   Date := time.Format_2006_01_02 (Now w);
                   Changes := [] |} con
          | inr e => bailed (errors.Wrap e "failed to get commit log") con
          end
      | inr e => bailed (errors.Wrap e "failed to get head ref") con
      end
    with
    | (con', Returned r) =>
        ({| stdout := stdout con' +:+ executeTemplate r.1;
            stderr := stderr con' |}, Returned tt)
    | (con', Exited code) => (con', Exited code)
    | (con', Panicked p) => (con', Panicked p)
    end
    = match
        match git.Head repo with
        | inl ref =>
            match
              match git.Log repo ref with
              | inl iter => inl (quietIter iter)
              | inr err => inr err
              end
            with
            | inl iter =>
                git.forEach (git.commits iter) (git.failure iter)
                  (onCommit useURL remoteURL)
                  {| Version := version;
                     Date := time.Format_2006_01_02 (Now w);
                     Changes := [] |} con
            | inr e => bailed (errors.Wrap e "failed to get commit log") con
            end
        | inr e => bailed (errors.Wrap e "failed to get head ref") con
        end
      with
      | (con', Returned r) =>
          ({| stdout := stdout con' +:+ executeTemplate r.1;
              stderr := stderr con' |}, Returned tt)
      | (con', Exited code) => (con', Exited code)
      | (con', Panicked p) => (con', Panicked p)
      end).
  { intros useURL remoteURL.
    destruct (git.Head repo) as [ref|e]; [|done].
    destruct (git.Log repo ref) as [iter|e]; [|done].
    rewrite !forEach_onCommit. cbn [quietIter git.commits git.failure].
    by destruct (forallb _ _). }
  destruct (git.Remote repo "origin") as [rem|e]; [|apply Hwalk].
  destruct (git.URLs rem) as [|url urls]; [done|].
  destruct (parseRemoteURL url) as [remoteURL [e|]]; [done|apply Hwalk].
Qed.

(** * Further properties of the changes and of the template *)

Lemma count_substring_0 (c : ascii) (s : string) (n : nat) :
  count c (String.substring 0 n s) ≤ count c s.
Proof.
  revert n. induction s as [|c' s IH]; intros [|n]; simpl; try lia.
  specialize (IH n). lia.
Qed.

Lemma digit_not_newline (n : nat) : Ascii.eqb (strconv.digit n) "010" = false.
Proof.
  unfold strconv.digit. pose proof (Nat.mod_upper_bound n 10) as Hn.
  destruct (n mod 10) as [|m]; [done|].
  do 9 (destruct m as [|m]; [done|]). lia.
Qed.

Lemma count_digits (fuel n : nat) (acc : string) :
  count "010" (strconv.digits fuel n acc) = count "010" acc.
Proof.
  revert n acc. induction fuel as [|fuel IH]; intros n acc; [done|].
  destruct (Nat.lt_ge_cases n 10).
  - rewrite digits_small by done. cbn [count].
    by rewrite digit_not_newline.
  - rewrite digits_large, IH by done. cbn [count].
    by rewrite digit_not_newline.
Qed.

Lemma count_appendInt (x width : nat) :
  count "010" (time.appendInt x width) = 0.
Proof.
  unfold time.appendInt, strconv.Itoa.
  rewrite count_append, count_digits.
  by induction (width - _) as [|k IH].
Qed.

Lemma count_Format (t : time.Time) :
  count "010" (time.Format_2006_01_02 t) = 0.
Proof.
  unfold time.Format_2006_01_02.
  by rewrite !count_append, !count_appendInt.
Qed.

(** X9: the title of a change is the first line of the commit message,
    whatever the message: the message is the title followed by nothing
    or by a line break and more, and the title has no line break. *)
Theorem title_first_line (useURL : bool) (remoteURL : string)
    (c : git.Commit) :
  ∃ rest,
    git.Message c = Title (changeOf useURL remoteURL c) +:+ rest
    ∧ count "010" (Title (changeOf useURL remoteURL c)) = 0
    ∧ (rest = "" ∨ starts_with nl rest).
Proof. apply Split_head. Qed.

(** X10: a change is rendered with a link exactly when the origin URL
    is in use: [- <title> [<sha>](<remoteURL>/commits/<hash>)] then,
    [- <title> [<sha>]] otherwise. *)
Theorem executeChange_link (useURL : bool) (remoteURL : string)
    (c : git.Commit) :
  executeChange (changeOf useURL remoteURL c)
  = nl +:+ "- " +:+ Title (changeOf useURL remoteURL c) +:+ " "
    +:+ "[" +:+ SHA (changeOf useURL remoteURL c)
    +:+ (if useURL
         then "](" +:+ remoteURL +:+ "/commits/" +:+ git.Hash c +:+ ")"
         else "]").
Proof.
  unfold executeChange. destruct useURL; cbn [changeOf URL]; [|done].
  assert (String.eqb (remoteURL +:+ "/commits/" +:+ git.Hash c) "" = false)
    as ->; [|by rewrite !append_assoc].
  apply String.eqb_neq, append_ne_nil.
Qed.

(** X11: one line per commit.  When the origin URL and the hashes hold
    no line break, the rendered release has three line breaks for the
    heading and the end, those of the version, and one per commit. *)
Theorem executeTemplate_lines (version remoteURL : string) (useURL : bool)
    (t : time.Time) (cs : list git.Commit) :
  count "010" remoteURL = 0 →
  Forall (λ c, count "010" (git.Hash c) = 0) cs →
  count "010"
    (executeTemplate
       {| Version := version;
          Date := time.Format_2006_01_02 t;
          Changes := changeOf useURL remoteURL <$> cs |})
  = 3 + count "010" version + length cs.
Proof.
  intros Hurl Hcs. unfold executeTemplate. cbn [Version Date Changes].
  rewrite !count_append, count_Format. cbn [count nl Ascii.eqb].
  assert (count "010"
            (String.concat ""
               (executeChange <$> (changeOf useURL remoteURL <$> cs)))
          = length cs) as ->; [|cbn; lia].
  induction Hcs as [|c cs Hc _ IH]; [done|].
  assert (Hentry : count "010" (executeChange (changeOf useURL remoteURL c))
                   = 1).
  { unfold executeChange. cbn [changeOf Title SHA URL].
    rewrite !count_append.
    destruct (Split_head (git.Message c) "010") as (_ & _ & -> & _).
    pose proof (count_substring_0 "010" (git.Hash c) 7).
    destruct (String.eqb _ ""); destruct useURL;
      rewrite ?count_append, ?Hurl, ?Hc; cbn; lia. }
  cbn [fmap list_fmap String.concat length].
  destruct (executeChange <$> (changeOf useURL remoteURL <$> cs)) eqn:E.
  - destruct cs; [|done]. cbn. lia.
  - rewrite !count_append, Hentry. cbn [count]. rewrite <-IH.
    cbn [String.concat]. lia.
Qed.

Lemma executeTemplate_lines_witness :
  count "010"
    (executeTemplate
       {| Version := "1.2.0";
          Date := time.Format_2006_01_02 sample.today;
          Changes := changeOf true "https://github.com/acme/widget"
                     <$> [sample.fix_bug; sample.add_feature] |})
  = 3 + count "010" "1.2.0" + length [sample.fix_bug; sample.add_feature].
Proof.
  apply (executeTemplate_lines "1.2.0" "https://github.com/acme/widget" true
           sample.today [sample.fix_bug; sample.add_feature]); [done|].
  constructor; [done|]. constructor; [done|]. constructor.
Defined.

(** * Further properties of the ways an invocation ends *)

(** X12: a panic comes before any output: when an invocation panics,
    nothing has been written, to standard output or to standard
    error. *)
Theorem Execute_panic_silent (w : World) (dirFlag : string)
    (args : list string) (con : console) (p : panic) :
  (Execute w dirFlag args con).2 = Panicked p →
  (Execute w dirFlag args con).1 = con.
Proof.
  destruct args as [|version rest].
  { by destruct (Execute_no_args w dirFlag con) as (e & _ & ->). }
  rewrite Execute_args, assemble_tree. cbv zeta.
  destruct (PlainOpen w (workdir dirFlag)) as [repo|e]; [|done].
  assert (Hwalk : ∀ useURL remoteURL,
    let r :=
      match
        match git.Head repo with
        | inl ref =>
            match git.Log repo ref with
            | inl iter =>
                git.forEach (git.commits iter) (git.failure iter)
                  (onCommit useURL remoteURL)
                  {| Version := version;
                     Date := time.Format_2006_01_02 (Now w);
                     Changes := [] |} con
            | inr e => bailed (errors.Wrap e "failed to get commit log") con
            end
        | inr e => bailed (errors.Wrap e "failed to get head ref") con
        end
      with
      | (con', Returned r) =>
          ({| stdout := stdout con' +:+ executeTemplate r.1;
              stderr := stderr con' |}, Returned tt)
      | (con', Exited code) => (con', Exited code)
      | (con', Panicked p) => (con', Panicked p)
      end in
    r.2 = Panicked p → r.1 = con).
  { intros useURL remoteURL.
    destruct (git.Head repo) as [ref|e]; [|done].
    destruct (git.Log repo ref) as [iter|e]; [|done].
    rewrite forEach_onCommit. by destruct (forallb _ _). }
  destruct (git.Remote repo "origin") as [rem|e]; [|apply Hwalk].
  destruct (git.URLs rem) as [|url urls]; [done|].
  destruct (parseRemoteURL url) as [remoteURL [e|]]; [done|apply Hwalk].
Qed.

Lemma Execute_panic_silent_witness :
  (Execute (sample.world (sample.repository (inl {| git.URLs := [] |}) None))
     "." ["1.2.0"] sample.console0).1 = sample.console0.
Proof.
  by apply (Execute_panic_silent _ _ _ _ IndexOutOfRange).
Defined.


